(** * labs/08/tagger_competition.py: the training harness and its script

    A shallow embedding of [TrainableModule] (configure, weight persistence,
    fit / evaluate / predict with their overridable steps, TensorBoard
    logging, keras_init), of the command-line parser and of [main]: the
    name it gives to the log directory and the loop that writes the
    predictions.

    Conventions.
    - Python dictionaries keyed by strings are [gmap string _]; the merge
      [a | b] (right operand wins) is [dict_or a b].
    - The tensor library, the optimizer, the schedule, the metrics and the
      network itself are collaborators of the file: they are the operations
      of the class [Backend].
    - Scalars (losses, learning rates, metric values) are the numbers of
      the tensor library, [Scalar], with its own arithmetic: sums and
      quotients round as it rounds, and a value may be NaN. Nothing is
      assumed of that arithmetic.
    - A device is one that [torch.device] accepts. Whether tensors can be
      put on it is another matter: the CPU always can, CUDA when it is
      available, and any other device as the tensor library says. The
      batches of a dataloader can be moved to the device of the module: what
      the training and prediction loops do on a module whose device takes no
      tensor (as [configure] leaves it when it raises) is not described.
    - Every method is a computation [M A] over the state of the module and of
      its surroundings (files, console, global autograd switch), which may
      raise; what was mutated before a raise stays mutated.
    - A state has every attribute that [configure] sets, an optimizer
      included; a method called on a module that was never configured (an
      [AttributeError] of Python) is outside the model.
    - A dataloader is the list of its batches, the same at every
      iteration. *)

From Stdlib Require Import QArith Qcanon Ascii.
From stdpp Require Import gmap strings list fin_maps pretty.

Set Default Proof Using "Type".
Open Scope Qc_scope.
Open Scope string_scope.
Open Scope list_scope.
Open Scope stdpp_scope.

(** ** Dictionaries *)

(** [a | b] of Python: the entries of [b], then those of [a] not in [b]. *)
Definition dict_or {V} (a b : gmap string V) : gmap string V := b ∪ a.

(** [{f(k): v for k, v in d.items()}] *)
Definition rekey {V} (f : string → string) (d : gmap string V) : gmap string V :=
  kmap f d.

(** [k.startswith(p)] and [k[n:]] *)
Definition startswith (p k : string) : bool := String.prefix p k.
Definition drop_chars (n : nat) (k : string) : string :=
  String.substring n (String.length k - n) k.

(** ** Devices *)

Inductive Device := cpu | cuda | other_device (name : string).
Inductive DeviceArg := auto | explicit (d : Device).

Global Instance Device_eq_dec : EqDecision Device.
Proof. solve_decision. Defined.

(** The plain arithmetic mean of exact numbers, computed on its own from
    the values. *)
Definition Qc_sum (vs : list Qc) : Qc := foldr Qcplus 0 vs.

(** ** The collaborators *)

Class Backend := {
  (* the numbers of the tensor library and their arithmetic *)
  Scalar : Type;
  s_zero : Scalar;
  s_one : Scalar;
  s_add : Scalar → Scalar → Scalar;
  s_mul : Scalar → Scalar → Scalar;
  s_div : Scalar → Scalar → Scalar;
  s_isnan : Scalar → bool;
  (* x.to(dtype), for the default dtype that a MeanMetric keeps its sums in *)
  s_cast : Scalar → Scalar;
  Data : Type;                 (* contents of a tensor *)
  (* a device other than the CPU and CUDA, by its name: whether tensors can
     be moved to it, whether a file can be loaded onto it and copied from
     there, and what is left of the contents of a tensor that arrives *)
  accepts : string → bool;
  loads : string → bool;
  arrive : string → Data → Data;
  Input : Type;                (* a batch of inputs, already a tuple *)
  Target : Type;               (* a batch of gold outputs *)
  Pred : Type;                 (* the output for one example *)
  Grads : Type;
  Optimizer : Type;
  Schedule : Type;
  Metric : Type;
  (* self.forward on the inputs, depending on the training flag *)
  net : bool → gmap string Data → Input → list Pred;
  (* self.loss(y_pred, y) *)
  criterion : list Pred → Target → Scalar;
  (* what loss.backward() adds to the gradients *)
  gradient : bool → gmap string Data → Input → Target → Grads;
  accumulate : option Grads → Grads → Grads;
  (* optimizer.step(): the parameters are updated in place *)
  opt_update : Optimizer → option Grads → string → Data → Data;
  opt_next : Optimizer → option Grads → Optimizer;
  (* schedule.step() and schedule.get_last_lr()[0] *)
  sched_next : Schedule → Optimizer → Schedule * Optimizer;
  last_lr : Schedule → Scalar;
  (* one member of the MetricCollection *)
  metric_reset : Metric → Metric;
  metric_update : Metric → list Pred → Target → Metric;
  metric_compute : Metric → Scalar;
}.

Abbreviation Logs := (gmap string Scalar).

(** ** Exceptions and observable effects *)

Inductive exn :=
| UnboundLocalError (name : string)
| DeviceMismatch                      (* RuntimeError of the forward pass *)
| FileNotFoundError (path : string)
| StateDictMismatch                   (* RuntimeError of load_state_dict *)
| DeviceUnavailable                   (* the error of a device that cannot be used *)
| TypeError.

Inductive result (A : Type) := Ok (a : A) | Raise (e : exn).
Arguments Ok {A} a.
Arguments Raise {A} e.

Section TrainableModule.
Context `{B : Backend}.

Inductive event :=
| ev_zero_grad
| ev_forward (grad : bool)
| ev_loss (v : Scalar)
| ev_backward
| ev_optimizer_step
| ev_schedule_step
| ev_description (epoch : nat) (logs : Logs)      (* progress bar *)
| ev_callback (cb epoch : nat) (logs : Logs)
| ev_print_epoch (epoch : nat) (logs : Logs)
| ev_print_evaluation (logs : Logs)
| ev_writer (name path : string)       (* SummaryWriter(path), for a stream *)
| ev_scalar (path key : string) (value : Scalar) (step : nat)
| ev_flush (path : string).

(** ** torchmetrics.MeanMetric

    Two running sums in the default dtype. [update(value)] takes the weight
    [1]: a value that is NaN is dropped (with a warning), any other is cast
    and [value * weight] is added to the one sum and the weight to the
    other; [compute()] is their quotient. *)

Record MeanMetric := { mean_value : Scalar; weight : Scalar }.

Definition MeanMetric_new : MeanMetric :=
  {| mean_value := s_zero; weight := s_zero |}.
Definition MeanMetric_reset (_ : MeanMetric) : MeanMetric := MeanMetric_new.
Definition MeanMetric_update (v : Scalar) (a : MeanMetric) : MeanMetric :=
  if s_isnan v then a
  else {| mean_value := s_add (mean_value a) (s_mul (s_cast v) s_one);
          weight := s_add (weight a) s_one |}.
Definition MeanMetric_compute (a : MeanMetric) : Scalar :=
  s_div (mean_value a) (weight a).

(** The running mean of some values as that arithmetic gives it: the
    values that are not NaN, cast, are added up in order from zero, and the
    sum is divided by their number, counted by adding ones. *)
Definition kept (vs : list Scalar) : list Scalar :=
  s_cast <$> List.filter (λ v, negb (s_isnan v)) vs.
Definition mean (vs : list Scalar) : Scalar :=
  s_div (foldl (λ acc v, s_add acc (s_mul v s_one)) s_zero (kept vs))
        (foldl (λ acc _, s_add acc s_one) s_zero (kept vs)).

Record Tensor := { data : Data; dev : Device }.

(** ** Devices and contents *)

(** Whether tensors can be moved to a device, and whether a file can be
    loaded with the device as [map_location] and its tensors copied from
    there. *)
Definition usable (available : bool) (d : Device) : bool :=
  match d with
  | cpu => true
  | cuda => available
  | other_device name => accepts name
  end.
Definition loadable (available : bool) (d : Device) : bool :=
  match d with
  | cpu => true
  | cuda => available
  | other_device name => loads name
  end.

(** The contents of a tensor once it is on a device: the CPU and CUDA keep
    them. *)
Definition settle (d : Device) (x : Data) : Data :=
  match d with
  | cpu | cuda => x
  | other_device name => arrive name x
  end.

(** [tensor.to(device)], for a device that can be used *)
Definition to_device (d : Device) (t : Tensor) : Tensor :=
  {| data := settle d (data t); dev := d |}.

Record State := mkState {
  (* attributes of the module *)
  training : bool;
  params : gmap string Tensor;          (* state_dict() *)
  grads : option Grads;
  optimizer : Optimizer;
  schedule : option Schedule;
  loss_metric : MeanMetric;
  metrics : gmap string Metric;
  logdir : option string;
  _writers : gmap string string;        (* stream name to writer, by its path *)
  device : Device;
  (* surroundings *)
  cuda_available : bool;
  grad_enabled : bool;
  files : gmap string (gmap string Tensor);
  trace : list event;
}.

Definition set_training v s :=
  mkState v (params s) (grads s) (optimizer s) (schedule s) (loss_metric s)
    (metrics s) (logdir s) (_writers s) (device s) (cuda_available s)
    (grad_enabled s) (files s) (trace s).
Definition set_params v s :=
  mkState (training s) v (grads s) (optimizer s) (schedule s) (loss_metric s)
    (metrics s) (logdir s) (_writers s) (device s) (cuda_available s)
    (grad_enabled s) (files s) (trace s).
Definition set_grads v s :=
  mkState (training s) (params s) v (optimizer s) (schedule s) (loss_metric s)
    (metrics s) (logdir s) (_writers s) (device s) (cuda_available s)
    (grad_enabled s) (files s) (trace s).
Definition set_optimizer v s :=
  mkState (training s) (params s) (grads s) v (schedule s) (loss_metric s)
    (metrics s) (logdir s) (_writers s) (device s) (cuda_available s)
    (grad_enabled s) (files s) (trace s).
Definition set_schedule v s :=
  mkState (training s) (params s) (grads s) (optimizer s) v (loss_metric s)
    (metrics s) (logdir s) (_writers s) (device s) (cuda_available s)
    (grad_enabled s) (files s) (trace s).
Definition set_loss_metric v s :=
  mkState (training s) (params s) (grads s) (optimizer s) (schedule s) v
    (metrics s) (logdir s) (_writers s) (device s) (cuda_available s)
    (grad_enabled s) (files s) (trace s).
Definition set_metrics v s :=
  mkState (training s) (params s) (grads s) (optimizer s) (schedule s)
    (loss_metric s) v (logdir s) (_writers s) (device s) (cuda_available s)
    (grad_enabled s) (files s) (trace s).
Definition set_logdir v s :=
  mkState (training s) (params s) (grads s) (optimizer s) (schedule s)
    (loss_metric s) (metrics s) v (_writers s) (device s) (cuda_available s)
    (grad_enabled s) (files s) (trace s).
Definition set_writers v s :=
  mkState (training s) (params s) (grads s) (optimizer s) (schedule s)
    (loss_metric s) (metrics s) (logdir s) v (device s) (cuda_available s)
    (grad_enabled s) (files s) (trace s).
Definition set_device v s :=
  mkState (training s) (params s) (grads s) (optimizer s) (schedule s)
    (loss_metric s) (metrics s) (logdir s) (_writers s) v (cuda_available s)
    (grad_enabled s) (files s) (trace s).
Definition set_grad_enabled v s :=
  mkState (training s) (params s) (grads s) (optimizer s) (schedule s)
    (loss_metric s) (metrics s) (logdir s) (_writers s) (device s)
    (cuda_available s) v (files s) (trace s).
Definition set_files v s :=
  mkState (training s) (params s) (grads s) (optimizer s) (schedule s)
    (loss_metric s) (metrics s) (logdir s) (_writers s) (device s)
    (cuda_available s) (grad_enabled s) v (trace s).
Definition set_trace v s :=
  mkState (training s) (params s) (grads s) (optimizer s) (schedule s)
    (loss_metric s) (metrics s) (logdir s) (_writers s) (device s)
    (cuda_available s) (grad_enabled s) (files s) v.

(** ** The monad of methods *)

Definition M (A : Type) : Type := State → result A * State.

Definition ret {A} (a : A) : M A := λ s, (Ok a, s).
Definition bind {A C} (m : M A) (k : A → M C) : M C :=
  λ s, match m s with
       | (Ok a, s') => k a s'
       | (Raise e, s') => (Raise e, s')
       end.
Definition raise {A} (e : exn) : M A := λ s, (Raise e, s).
Definition modify (f : State → State) : M unit := λ s, (Ok tt, f s).
Definition gets {A} (f : State → A) : M A := λ s, (Ok (f s), s).
Definition emit (e : event) : M unit :=
  modify (λ s, set_trace (trace s ++ [e]) s).

Notation "'let*' x := m 'in' k" := (bind m (λ x, k))
  (at level 10, x name, m at level 100, k at level 200, only parsing).
Notation "m ;;; k" := (bind m (λ _, k))
  (at level 100, k at level 200, right associativity, only parsing).

(** [for x in xs: body(x)] *)
Fixpoint for_each {A} (xs : list A) (body : A → M unit) : M unit :=
  match xs with
  | [] => ret tt
  | x :: xs' => body x ;;; for_each xs' body
  end.

(** [with torch.no_grad(): body]; the switch is restored on exit, whether
    the body returns or raises. *)
Definition no_grad {A} (body : M A) : M A :=
  λ s, let prev := grad_enabled s in
       let '(r, s') := body (set_grad_enabled false s) in
       (r, set_grad_enabled prev s').

(** A local variable that may not have been assigned yet. *)
Definition read_local {A} (name : string) (v : option A) : M A :=
  match v with
  | Some a => ret a
  | None => raise (UnboundLocalError name)
  end.

(** ** configure, load_weights, save_weights *)

(** [torch.device(("cuda" if torch.cuda.is_available() else "cpu")
    if device == "auto" else device)] *)
Definition select_device (available : bool) (arg : DeviceArg) : Device :=
  match arg with
  | auto => if available then cuda else cpu
  | explicit d => d
  end.

(** [self.to(device)]: every parameter is moved to the device. The move of
    the first one raises when the device cannot be used, and nothing has
    moved then; a module without parameters has nothing to move, hence
    nothing that raises. *)
Definition to (d : Device) : M unit :=
  let* ps := gets params in
  let* available := gets cuda_available in
  if bool_decide (dom ps = ∅) || usable available d
  then modify (set_params (to_device d <$> ps))
  else raise DeviceUnavailable.

(** The loss function and the network are fixed by [Backend]; the other
    keyword arguments are stored. *)
Definition configure (optimizer_ : Optimizer) (schedule_ : option Schedule)
    (metrics_ : gmap string Metric) (logdir_ : option string)
    (device_ : DeviceArg) : M unit :=
  modify (set_optimizer optimizer_) ;;;
  modify (set_schedule schedule_) ;;;
  modify (set_loss_metric MeanMetric_new) ;;;
  modify (set_metrics metrics_) ;;;
  modify (set_logdir logdir_) ;;;
  modify (set_writers ∅) ;;;
  let* available := gets cuda_available in
  modify (set_device (select_device available device_)) ;;;
  let* d := gets device in
  to d.

(** [param.copy_(input_param)]: the contents are overwritten by those of
    the input as they settle on the device of the parameter; the tensor
    stays where it is. *)
Definition copy_ (param input_param : Tensor) : Tensor :=
  {| data := settle (dev param) (data input_param); dev := dev param |}.

(** [self.load_state_dict(sd)], strict: the keys must be those of the module;
    every parameter then receives the loaded contents in place. *)
Definition load_state_dict (sd : gmap string Tensor) : M unit :=
  let* ps := gets params in
  if decide (dom sd = dom ps) then
    modify (set_params
      (map_imap (λ k p, Some (match sd !! k with
                              | Some t => copy_ p t
                              | None => p
                              end)) ps))
  else raise StateDictMismatch.

Definition load_weights (path : string) (device_ : DeviceArg) : M unit :=
  let* available := gets cuda_available in
  modify (set_device (select_device available device_)) ;;;
  let* d := gets device in
  let* fs := gets files in
  match fs !! path with
  | None => raise (FileNotFoundError path)
  | Some saved =>
      (* torch.load(path, map_location=self.device): the tensors of the file
         are put on the device, which must allow it *)
      if bool_decide (dom saved = ∅) || loadable available d
      then load_state_dict (to_device d <$> saved)
      else raise DeviceUnavailable
  end.

Definition save_weights (path : string) : M unit :=
  let* state_dict := gets params in
  modify (λ s, set_files (<[path := state_dict]> (files s)) s).

(** ** The steps *)

(** All tensors of one forward pass are on one device: the inputs have been
    moved to [self.device], so the parameters must be there too. *)
Definition placed (s : State) : Prop :=
  map_Forall (λ _ t, dev t = device s) (params s).

Definition forward (xs : Input) : M (list Pred) :=
  λ s, if decide (placed s)
       then (Ok (net (training s) (data <$> params s) xs),
             set_trace (trace s ++ [ev_forward (grad_enabled s)]) s)
       else (Raise DeviceMismatch, s).

Definition zero_grad : M unit :=
  modify (set_grads None) ;;; emit ev_zero_grad.

Definition loss (y_pred : list Pred) (y : Target) : M Scalar :=
  emit (ev_loss (criterion y_pred y)) ;;; ret (criterion y_pred y).

Definition backward (xs : Input) (y : Target) : M unit :=
  modify (λ s, set_grads
    (Some (accumulate (grads s)
             (gradient (training s) (data <$> params s) xs y))) s) ;;;
  emit ev_backward.

Definition optimizer_step : M unit :=
  modify (λ s,
    set_optimizer (opt_next (optimizer s) (grads s))
      (set_params
         (map_imap (λ k p, Some {| data := opt_update (optimizer s) (grads s) k (data p);
                                   dev := dev p |}) (params s)) s)) ;;;
  emit ev_optimizer_step.

Definition schedule_step (sch : Schedule) : M unit :=
  modify (λ s, set_schedule (Some (sched_next sch (optimizer s)).1)
                 (set_optimizer (sched_next sch (optimizer s)).2 s)) ;;;
  emit ev_schedule_step.

Definition loss_metric_update (v : Scalar) : M unit :=
  modify (λ s, set_loss_metric (MeanMetric_update v (loss_metric s)) s).
Definition metrics_update (y_pred : list Pred) (y : Target) : M unit :=
  modify (λ s, set_metrics ((λ m, metric_update m y_pred y) <$> metrics s) s).
Definition loss_metric_compute : M Scalar :=
  gets (λ s, MeanMetric_compute (loss_metric s)).
Definition metrics_compute : M Logs :=
  gets (λ s, metric_compute <$> metrics s).
Definition reset_accumulators : M unit :=
  modify (λ s, set_loss_metric (MeanMetric_reset (loss_metric s)) s) ;;;
  modify (λ s, set_metrics (metric_reset <$> metrics s) s).

Definition train_step (xs : Input) (y : Target) : M Logs :=
  zero_grad ;;;
  let* y_pred := forward xs in
  let* l := loss y_pred y in
  backward xs y ;;;
  no_grad (
    optimizer_step ;;;
    (let* sch := gets schedule in
     match sch with
     | Some sch => schedule_step sch
     | None => ret tt
     end) ;;;
    loss_metric_update l ;;;
    metrics_update y_pred y ;;;
    let* running := loss_metric_compute in
    let* sch := gets schedule in
    let* ms := metrics_compute in
    ret (dict_or
           (dict_or {[ "loss" := running ]}
              (match sch with
               | Some sch => {[ "lr" := last_lr sch ]}
               | None => ∅
               end))
           ms)).

Definition test_step (xs : Input) (y : Target) : M Logs :=
  no_grad (
    let* y_pred := forward xs in
    let* l := loss y_pred y in
    loss_metric_update l ;;;
    metrics_update y_pred y ;;;
    let* running := loss_metric_compute in
    let* ms := metrics_compute in
    ret (dict_or {[ "loss" := running ]} ms)).

Definition predict_step (xs : Input) : M (list Pred) :=
  no_grad (forward xs).

(** ** Scalar logging *)

(** [os.path.join(a, b)] on a POSIX system *)
Definition path_join (a b : string) : string :=
  if startswith "/" b then b
  else if String.eqb a "" then b
  else if String.eqb (drop_chars (String.length a - 1) a) "/" then a +:+ b
  else a +:+ "/" +:+ b.

(** Truth value of [self.logdir]: neither [None] nor the empty string. *)
Definition truthy (o : option string) : bool :=
  match o with
  | Some d => negb (String.eqb d "")
  | None => false
  end.

Definition writer (name : string) : M string :=
  let* ws := gets _writers in
  match ws !! name with
  | Some w => ret w
  | None =>
      let* dir := gets logdir in
      match dir with
      | None => raise TypeError
      | Some d =>
          emit (ev_writer name (path_join d name)) ;;;
          modify (λ s, set_writers (<[name := path_join d name]> (_writers s)) s) ;;;
          ret (path_join d name)
      end
  end.

(** The scalars are added in the order of [map_to_list]; Python follows the
    insertion order of the dictionary. *)
Definition add_logs (name : string) (logs : Logs) (step : nat) : M unit :=
  let* dir := gets logdir in
  if bool_decide (logs ≠ ∅) && truthy dir then
    for_each (map_to_list logs) (λ kv,
      let* w := writer name in emit (ev_scalar w kv.1 kv.2 step)) ;;;
    let* w := writer name in
    emit (ev_flush w)
  else ret tt.

(** ** evaluate *)

Abbreviation Dataloader := (list (Input * Target)).

(** The loop over the batches; [logs] is the local variable of the method,
    unbound until the first batch has been seen. The move of the batch to
    [self.device] is the premise of [forward]. *)
Fixpoint evaluate_batches (dataloader : Dataloader) (logs : option Logs)
    : M (option Logs) :=
  match dataloader with
  | [] => ret logs
  | (xs, y) :: rest =>
      let* l := test_step xs y in
      evaluate_batches rest (Some l)
  end.

Definition evaluate (dataloader : Dataloader) (verbose : nat) : M Logs :=
  modify (set_training false) ;;;
  reset_accumulators ;;;
  let* logs := evaluate_batches dataloader None in
  (match verbose with
   | O => ret tt
   | S _ => let* l := read_local "logs" logs in emit (ev_print_evaluation l)
   end) ;;;
  read_local "logs" logs.

(** ** fit *)

Fixpoint fit_batches (epoch : nat) (dataloader : Dataloader)
    (logs : option Logs) : M (option Logs) :=
  match dataloader with
  | [] => ret logs
  | (xs, y) :: rest =>
      let* l := train_step xs y in
      emit (ev_description epoch l) ;;;
      fit_batches epoch rest (Some l)
  end.

(** The body of [for epoch in range(epochs)]. Callbacks are observers: the
    call is recorded with its arguments (the module is [self]). The
    augmented assignment [logs |= ...] reads [logs] before it evaluates its
    right-hand side. *)
Definition fit_epoch (dataloader : Dataloader) (dev_ : option Dataloader)
    (callbacks : list nat) (verbose : nat) (epoch : nat)
    (logs : option Logs) : M (option Logs) :=
  modify (set_training true) ;;;
  reset_accumulators ;;;
  let* logs := fit_batches epoch dataloader logs in
  let* logs :=
    match dev_ with
    | Some d =>
        let* l := read_local "logs" logs in
        let* dev_logs := evaluate d 0 in
        ret (Some (dict_or l (rekey (String.append "dev_") dev_logs)))
    | None => ret logs
    end in
  for_each callbacks (λ callback,
    let* l := read_local "logs" logs in emit (ev_callback callback epoch l)) ;;;
  let* l := read_local "logs" logs in
  add_logs "train" (filter (λ kv, ¬ startswith "dev_" kv.1) l) (epoch + 1) ;;;
  add_logs "dev"
    (rekey (drop_chars 4) (filter (λ kv, startswith "dev_" kv.1) l))
    (epoch + 1) ;;;
  (match verbose with
   | O => ret tt
   | S _ => emit (ev_print_epoch epoch l)
   end) ;;;
  ret logs.

Fixpoint fit_epochs (dataloader : Dataloader) (dev_ : option Dataloader)
    (callbacks : list nat) (verbose : nat) (epochs : list nat)
    (logs : option Logs) : M (option Logs) :=
  match epochs with
  | [] => ret logs
  | epoch :: rest =>
      let* logs := fit_epoch dataloader dev_ callbacks verbose epoch logs in
      fit_epochs dataloader dev_ callbacks verbose rest logs
  end.

(** [range(epochs)] *)
Definition range (n : Z) : list nat := seq 0 (Z.to_nat n).

Definition fit (dataloader : Dataloader) (epochs : Z)
    (dev_ : option Dataloader) (callbacks : list nat) (verbose : nat)
    : M Logs :=
  let* logs := fit_epochs dataloader dev_ callbacks verbose (range epochs) None in
  read_local "logs" logs.

(** ** predict

    An element of the dataloader is the input itself; for a tuple whose
    first element is the input, [batch[0]] is taken first. *)

Inductive Prediction := numpy_array (p : Pred) | tensor (p : Pred).

Fixpoint predict_batches (dataloader : list Input) (as_numpy : bool)
    (predictions : list Prediction) : M (list Prediction) :=
  match dataloader with
  | [] => ret predictions
  | xs :: rest =>
      let* batch := predict_step xs in
      predict_batches rest as_numpy
        (predictions ++ ((if as_numpy then numpy_array else tensor) <$> batch))
  end.

Definition predict (dataloader : list Input) (as_numpy : bool)
    : M (list Prediction) :=
  modify (set_training false) ;;;
  predict_batches dataloader as_numpy [].


(** * Properties *)

Ltac run :=
  unfold bind, ret, modify, gets, emit, raise; simpl.

(** ** Device selection (configure, load_weights) *)

(** Whether [self.to] gets through: there is nothing to move, or the device
    can be used. *)
Definition movable (d : Device) (s : State) : bool :=
  bool_decide (dom (params s) = ∅) || usable (cuda_available s) d.

(** The devices that keep the contents of a tensor as they are. *)
Definition plain (d : Device) : Prop := d = cpu ∨ d = cuda.

Lemma settle_plain d x : plain d → settle d x = x.
Proof. by intros [-> | ->]. Qed.

Lemma plain_select_auto available : plain (select_device available auto).
Proof. destruct available; [by right|by left]. Qed.

Lemma usable_select_auto available :
  usable available (select_device available auto) = true.
Proof. by destruct available. Qed.

Lemma loadable_select_auto available :
  loadable available (select_device available auto) = true.
Proof. by destruct available. Qed.

Lemma configure_state optimizer_ schedule_ metrics_ logdir_ device_ s :
  configure optimizer_ schedule_ metrics_ logdir_ device_ s =
  if movable (select_device (cuda_available s) device_) s then
    (Ok tt,
     mkState (training s)
       (to_device (select_device (cuda_available s) device_) <$> params s)
       (grads s) optimizer_ schedule_ MeanMetric_new metrics_ logdir_ ∅
       (select_device (cuda_available s) device_) (cuda_available s)
       (grad_enabled s) (files s) (trace s))
  else
    (Raise DeviceUnavailable,
     mkState (training s) (params s)
       (grads s) optimizer_ schedule_ MeanMetric_new metrics_ logdir_ ∅
       (select_device (cuda_available s) device_) (cuda_available s)
       (grad_enabled s) (files s) (trace s)).
Proof.
  unfold configure, to, movable. run.
  by destruct (bool_decide _ || usable _ _).
Qed.

Lemma movable_usable d s : usable (cuda_available s) d = true → movable d s = true.
Proof. intros H. unfold movable. by rewrite H, orb_true_r. Qed.

Lemma configure_placed optimizer_ schedule_ metrics_ logdir_ device_ s :
  movable (select_device (cuda_available s) device_) s = true →
  placed (configure optimizer_ schedule_ metrics_ logdir_ device_ s).2.
Proof.
  intros Hm. rewrite configure_state, Hm. unfold placed. simpl.
  intros k t. rewrite lookup_fmap.
  destruct (params s !! k); simpl; [|done].
  intros [= <-]. reflexivity.
Qed.

Lemma load_weights_device path device_ s :
  device (load_weights path device_ s).2 = select_device (cuda_available s) device_.
Proof.
  unfold load_weights, load_state_dict. run.
  destruct (files s !! path); simpl; [|done].
  destruct (bool_decide _ || loadable _ _); [|done]. simpl.
  destruct (decide _); reflexivity.
Qed.

(** C6 (as amended). [configure] and [load_weights] select a device in the
    same way: with "auto" it is CUDA exactly when CUDA is available, and
    the CPU otherwise, hence always a device that can be used; an explicit
    device is taken as given. [configure] stores the device and then moves
    every parameter of the module to it: when the device can be used, every
    parameter ends on it, with its contents as they settle there (unchanged
    on the CPU and on CUDA); when it cannot, and the module has a parameter,
    [configure] raises with the device stored and every parameter where and
    as it was. *)
Theorem device_selection :
  (∀ available, select_device available auto = cuda ↔ available = true) ∧
  (∀ available, select_device available auto = cpu ↔ available = false) ∧
  (∀ available d, select_device available (explicit d) = d) ∧
  (∀ available, usable available (select_device available auto) = true) ∧
  (∀ optimizer_ schedule_ metrics_ logdir_ device_ s,
     let s' := (configure optimizer_ schedule_ metrics_ logdir_ device_ s).2 in
     device s' = select_device (cuda_available s) device_ ∧
     dom (params s') = dom (params s) ∧
     (usable (cuda_available s) (device s') = true →
      (configure optimizer_ schedule_ metrics_ logdir_ device_ s).1 = Ok tt ∧
      ∀ name p, params s !! name = Some p →
        params s' !! name =
        Some {| data := settle (device s') (data p); dev := device s' |}) ∧
     (usable (cuda_available s) (device s') = false → params s ≠ ∅ →
      (configure optimizer_ schedule_ metrics_ logdir_ device_ s).1 =
        Raise DeviceUnavailable ∧
      params s' = params s)) ∧
  (∀ d x, d = cpu ∨ d = cuda → settle d x = x) ∧
  (∀ path device_ s,
     device (load_weights path device_ s).2 =
     select_device (cuda_available s) device_).
Proof.
  split_and!.
  - intros []; simpl; split; congruence.
  - intros []; simpl; split; congruence.
  - reflexivity.
  - apply usable_select_auto.
  - intros. subst s'. rewrite configure_state. unfold movable.
    destruct (decide (dom (params s) = ∅)) as [He|He].
    + rewrite bool_decide_eq_true_2 by done. cbn [orb snd fst device params].
      apply dom_empty_inv_L in He.
      split_and!; [done|apply dom_fmap_L| |].
      * intros _. split; [done|]. intros name p Hp.
        by rewrite He, lookup_empty in Hp.
      * intros _ Hne. done.
    + rewrite bool_decide_eq_false_2 by done. cbn [orb].
      destruct (usable (cuda_available s) (select_device (cuda_available s) device_))
        eqn:Hu; cbn [snd fst device params]; rewrite Hu.
      * split_and!; [done|apply dom_fmap_L| |done].
        intros _. split; [done|]. intros name p Hp.
        rewrite lookup_fmap, Hp. reflexivity.
      * split_and!; [done|done|done|]. intros _ _. done.
  - intros d x [-> | ->]; reflexivity.
  - apply load_weights_device.
Qed.

(** ** One training step *)

(** What the forward pass and the loss function give on a batch, in the
    current state of the module. *)
Definition batch_output (s : State) (xs : Input) : list Pred :=
  net (training s) (data <$> params s) xs.
Definition batch_loss (s : State) (xs : Input) (y : Target) : Scalar :=
  criterion (batch_output s xs) y.

(** The parameters after one optimizer update. *)
Definition updated_params (s : State) (g : option Grads) : gmap string Tensor :=
  map_imap (λ k p, Some {| data := opt_update (optimizer s) g k (data p);
                           dev := dev p |}) (params s).

Lemma dict_or_lookup {V} (a b : gmap string V) k :
  dict_or a b !! k = match b !! k with Some v => Some v | None => a !! k end.
Proof. unfold dict_or. rewrite lookup_union. destruct (b !! k), (a !! k); done. Qed.

Lemma dict_or_dom {V} (a b : gmap string V) : dom (dict_or a b) = dom a ∪ dom b.
Proof. unfold dict_or. rewrite dom_union_L. apply (comm_L (∪)). Qed.

Lemma updated_params_lookup s g k :
  updated_params s g !! k =
  (λ p, {| data := opt_update (optimizer s) g k (data p); dev := dev p |})
    <$> params s !! k.
Proof. unfold updated_params. rewrite map_lookup_imap. by destruct (params s !! k). Qed.

(** The calls one training step makes, in order. *)
Definition train_step_events (s : State) (xs : Input) (y : Target) : list event :=
  [ev_zero_grad; ev_forward (grad_enabled s); ev_loss (batch_loss s xs y);
   ev_backward; ev_optimizer_step] ++
  match schedule s with
  | Some _ => [ev_schedule_step]
  | None => []
  end.

(** The module after one training step, written out field by field. *)
Definition trained (xs : Input) (y : Target) (s : State) : State :=
  let g := Some (accumulate None (gradient (training s) (data <$> params s) xs y)) in
  let o := opt_next (optimizer s) g in
  mkState (training s) (updated_params s g) g
    (match schedule s with Some sch => (sched_next sch o).2 | None => o end)
    (match schedule s with Some sch => Some (sched_next sch o).1 | None => None end)
    (MeanMetric_update (batch_loss s xs y) (loss_metric s))
    ((λ m, metric_update m (batch_output s xs) y) <$> metrics s)
    (logdir s) (_writers s) (device s) (cuda_available s) (grad_enabled s)
    (files s) (trace s ++ train_step_events s xs y).

(** The records the steps build from the accumulators they have just
    updated: [train_step] adds the learning rate, [test_step] does not. *)
Definition eval_logs (s : State) : Logs :=
  dict_or {[ "loss" := MeanMetric_compute (loss_metric s) ]}
    (metric_compute <$> metrics s).
Definition train_logs (s : State) : Logs :=
  dict_or
    (dict_or {[ "loss" := MeanMetric_compute (loss_metric s) ]}
       (match schedule s with
        | Some sch => {[ "lr" := last_lr sch ]}
        | None => ∅
        end))
    (metric_compute <$> metrics s).

(** Evaluation of a method on a state given by its fields: call by value,
    so that no state is copied before it has been computed. *)
Ltac run_model :=
  cbv beta iota zeta delta
    [bind ret modify gets emit raise no_grad read_local
     train_step test_step predict_step zero_grad loss backward optimizer_step
     schedule_step loss_metric_update metrics_update loss_metric_compute
     metrics_compute reset_accumulators forward
     training params grads optimizer schedule loss_metric metrics logdir
     _writers device cuda_available grad_enabled files trace
     set_training set_params set_grads set_optimizer set_schedule
     set_loss_metric set_metrics set_logdir set_writers set_device
     set_grad_enabled set_files set_trace fst snd].

Lemma train_step_placed xs y s :
  placed s →
  train_step xs y s = (Ok (train_logs (trained xs y s)), trained xs y s).
Proof.
  intros Hp.
  unfold trained, train_logs, train_step_events, batch_loss, batch_output,
    updated_params.
  destruct s as [? ? ? ? sch ? ? ? ? ? ? ? ? ?].
  run_model. rewrite decide_True by exact Hp.
  destruct sch; rewrite <- !app_assoc; reflexivity.
Qed.

Lemma train_step_misplaced xs y s :
  ¬ placed s →
  train_step xs y s =
  (Raise DeviceMismatch, set_trace (trace s ++ [ev_zero_grad]) (set_grads None s)).
Proof.
  intros Hp. unfold train_step, zero_grad, forward. run.
  destruct (decide _) as [p|]; [destruct Hp; exact p|reflexivity].
Qed.

Lemma trained_placed xs y s : placed s → placed (trained xs y s).
Proof.
  unfold placed. simpl. intros Hp k t. rewrite updated_params_lookup.
  destruct (params s !! k) as [p|] eqn:E; simpl; [|done].
  intros [= <-]. simpl. exact (Hp k p E).
Qed.

Lemma train_logs_metric s name :
  is_Some (metrics s !! name) →
  train_logs s !! name = metric_compute <$> metrics s !! name.
Proof.
  intros [m Hm]. unfold train_logs. rewrite dict_or_lookup, lookup_fmap, Hm.
  reflexivity.
Qed.

Lemma train_logs_loss s :
  "loss" ∉ dom (metrics s) →
  train_logs s !! "loss" = Some (MeanMetric_compute (loss_metric s)).
Proof.
  intros Hn. apply not_elem_of_dom in Hn.
  unfold train_logs. rewrite !dict_or_lookup, lookup_fmap, Hn. simpl.
  destruct (schedule s); by simplify_map_eq.
Qed.

Lemma train_logs_lr s :
  "lr" ∉ dom (metrics s) →
  train_logs s !! "lr" = last_lr <$> schedule s.
Proof.
  intros Hn. apply not_elem_of_dom in Hn.
  unfold train_logs. rewrite !dict_or_lookup, lookup_fmap, Hn. simpl.
  destruct (schedule s); by simplify_map_eq.
Qed.

Lemma train_logs_dom s :
  dom (train_logs s) =
  {[ "loss" ]} ∪ match schedule s with Some _ => {[ "lr" ]} | None => ∅ end
  ∪ dom (metrics s).
Proof.
  unfold train_logs. rewrite !dict_or_dom, dom_fmap_L, dom_singleton_L.
  destruct (schedule s); rewrite ?dom_singleton_L, ?dom_empty_L; reflexivity.
Qed.

Lemma eval_logs_metric s name :
  is_Some (metrics s !! name) →
  eval_logs s !! name = metric_compute <$> metrics s !! name.
Proof.
  intros [m Hm]. unfold eval_logs. rewrite dict_or_lookup, lookup_fmap, Hm.
  reflexivity.
Qed.

Lemma eval_logs_loss s :
  "loss" ∉ dom (metrics s) →
  eval_logs s !! "loss" = Some (MeanMetric_compute (loss_metric s)).
Proof.
  intros Hn. apply not_elem_of_dom in Hn.
  unfold eval_logs. rewrite !dict_or_lookup, lookup_fmap, Hn. simpl.
  by simplify_map_eq.
Qed.

Lemma eval_logs_dom s : dom (eval_logs s) = {[ "loss" ]} ∪ dom (metrics s).
Proof.
  unfold eval_logs. by rewrite !dict_or_dom, dom_fmap_L, dom_singleton_L.
Qed.

(** C5 (as amended). On a module whose parameters are where its inputs go,
    one call of [train_step] makes these calls, in this order and no others:
    gradient reset, forward pass, loss, backward pass, one optimizer update
    and, exactly when a schedule is configured, one schedule update after it.
    It returns a dictionary that holds every computed metric under its name
    and, unless a metric is itself named "loss" or "lr", the running loss
    under "loss" and the last learning rate under "lr" (the latter exactly
    when a schedule is configured). *)
Theorem train_step_sequence xs y s :
  placed s →
  ∃ logs s',
    train_step xs y s = (Ok logs, s') ∧
    trace s' = trace s ++
      [ev_zero_grad; ev_forward (grad_enabled s); ev_loss (batch_loss s xs y);
       ev_backward; ev_optimizer_step] ++
      match schedule s with Some _ => [ev_schedule_step] | None => [] end ∧
    (is_Some (schedule s') ↔ is_Some (schedule s)) ∧
    loss_metric s' = MeanMetric_update (batch_loss s xs y) (loss_metric s) ∧
    (∀ name, is_Some (metrics s !! name) →
       logs !! name = metric_compute <$> metrics s' !! name) ∧
    ("loss" ∉ dom (metrics s) →
       logs !! "loss" = Some (MeanMetric_compute (loss_metric s'))) ∧
    ("lr" ∉ dom (metrics s) → logs !! "lr" = last_lr <$> schedule s') ∧
    dom logs =
      {[ "loss" ]} ∪ match schedule s with Some _ => {[ "lr" ]} | None => ∅ end
      ∪ dom (metrics s).
Proof.
  intros Hp. eexists _, _. split; [apply train_step_placed, Hp|].
  assert (Hd : dom (metrics (trained xs y s)) = dom (metrics s))
    by apply dom_fmap_L.
  split_and!.
  - simpl. unfold train_step_events. by destruct (schedule s).
  - simpl. destruct (schedule s); split; intros [? ?]; eauto; done.
  - reflexivity.
  - intros name Hm. apply train_logs_metric. simpl.
    rewrite lookup_fmap. destruct Hm as [m ->]. eauto.
  - intros Hn. apply train_logs_loss. by rewrite Hd.
  - intros Hn. apply train_logs_lr. by rewrite Hd.
  - rewrite train_logs_dom, Hd. simpl. by destruct (schedule s).
Qed.

(** ** The running mean of MeanMetric *)



Lemma Qc_sum_snoc vs v : Qc_sum (vs ++ [v]) = Qc_sum vs + v.
Proof.
  induction vs as [|w vs IH]; simpl.
  - ring.
  - rewrite IH. ring.
Qed.

(** The accumulator after the updates [vs], in order. *)
Definition MeanMetric_updates (vs : list Scalar) (a : MeanMetric) : MeanMetric :=
  foldl (λ a v, MeanMetric_update v a) a vs.

Lemma MeanMetric_updates_snoc vs v a :
  MeanMetric_updates (vs ++ [v]) a = MeanMetric_update v (MeanMetric_updates vs a).
Proof. unfold MeanMetric_updates. by rewrite foldl_app. Qed.

Lemma MeanMetric_updates_sums vs a :
  mean_value (MeanMetric_updates vs a) =
    foldl (λ acc v, s_add acc (s_mul v s_one)) (mean_value a) (kept vs) ∧
  weight (MeanMetric_updates vs a) =
    foldl (λ acc _, s_add acc s_one) (weight a) (kept vs).
Proof.
  revert a. induction vs as [|v vs IH]; intros a; [done|].
  unfold MeanMetric_updates, kept in *. cbn [foldl List.filter].
  rewrite (proj1 (IH _)), (proj2 (IH _)). unfold MeanMetric_update.
  by destruct (s_isnan v).
Qed.

Lemma MeanMetric_running_mean vs a :
  MeanMetric_compute (MeanMetric_updates vs (MeanMetric_reset a)) = mean vs.
Proof.
  unfold MeanMetric_compute, mean.
  by destruct (MeanMetric_updates_sums vs (MeanMetric_reset a)) as [-> ->].
Qed.



(** ** One evaluation step, and a pass of them *)

(** The module after one evaluation step. *)
Definition tested (xs : Input) (y : Target) (s : State) : State :=
  set_trace (trace s ++ [ev_forward false; ev_loss (batch_loss s xs y)])
    (set_metrics ((λ m, metric_update m (batch_output s xs) y) <$> metrics s)
       (set_loss_metric
          (MeanMetric_update (batch_loss s xs y) (loss_metric s)) s)).

Lemma test_step_placed xs y s :
  placed s →
  test_step xs y s = (Ok (eval_logs (tested xs y s)), tested xs y s).
Proof.
  intros Hp. unfold test_step, forward, loss, no_grad, loss_metric_update,
    metrics_update, loss_metric_compute, metrics_compute.
  run. destruct (decide _) as [|n]; [|destruct n; exact Hp].
  unfold tested, eval_logs, batch_loss, batch_output.
  destruct s; simpl; rewrite <- !app_assoc; reflexivity.
Qed.

Lemma test_step_misplaced xs y s :
  ¬ placed s → test_step xs y s = (Raise DeviceMismatch, s).
Proof.
  intros Hp. unfold test_step, forward, no_grad. run.
  destruct (decide _) as [p|]; [destruct Hp; exact p|].
  destruct s; reflexivity.
Qed.

Lemma tested_placed xs y s : placed s → placed (tested xs y s).
Proof. intros Hp. exact Hp. Qed.

(** The module after the batches of a dataloader, one evaluation step each. *)
Definition tested_all (dataloader : Dataloader) (s : State) : State :=
  foldl (λ s b, tested b.1 b.2 s) s dataloader.

Lemma tested_all_snoc dataloader b s :
  tested_all (dataloader ++ [b]) s = tested b.1 b.2 (tested_all dataloader s).
Proof. unfold tested_all. by rewrite foldl_app. Qed.

Lemma tested_all_frame dataloader s :
  let s' := tested_all dataloader s in
  training s' = training s ∧ params s' = params s ∧ grads s' = grads s ∧
  optimizer s' = optimizer s ∧ schedule s' = schedule s ∧
  logdir s' = logdir s ∧ _writers s' = _writers s ∧ device s' = device s ∧
  cuda_available s' = cuda_available s ∧ grad_enabled s' = grad_enabled s ∧
  files s' = files s.
Proof.
  induction dataloader as [|b dl IH] using rev_ind; [done|].
  rewrite tested_all_snoc. simpl in *. exact IH.
Qed.


Lemma batch_output_frame s s' xs :
  training s' = training s → params s' = params s →
  batch_output s' xs = batch_output s xs.
Proof. unfold batch_output. by intros -> ->. Qed.

Lemma batch_loss_frame s s' xs y :
  training s' = training s → params s' = params s →
  batch_loss s' xs y = batch_loss s xs y.
Proof. unfold batch_loss. intros Ht Hp. by rewrite (batch_output_frame s s'). Qed.

(** The losses of the batches of an evaluation pass: the parameters do not
    move, so each is a function of its batch alone. *)
Definition eval_losses (s : State) (dataloader : Dataloader) : list Scalar :=
  (λ b, batch_loss s b.1 b.2) <$> dataloader.

Lemma tested_all_loss_metric dataloader s :
  loss_metric (tested_all dataloader s) =
  MeanMetric_updates (eval_losses s dataloader) (loss_metric s).
Proof.
  induction dataloader as [|b dl IH] using rev_ind; [done|].
  rewrite tested_all_snoc. unfold eval_losses. rewrite fmap_app. simpl.
  rewrite MeanMetric_updates_snoc, IH.
  destruct (tested_all_frame dl s) as (Ht & Hp & _).
  by rewrite (batch_loss_frame s _ _ _ Ht Hp).
Qed.

Lemma tested_all_metrics dataloader s :
  metrics (tested_all dataloader s) =
  (λ m, foldl (λ m b, metric_update m (batch_output s b.1) b.2) m dataloader)
    <$> metrics s.
Proof.
  induction dataloader as [|b dl IH] using rev_ind.
  - simpl. by rewrite map_fmap_id.
  - rewrite tested_all_snoc. simpl. rewrite IH, <- map_fmap_compose.
    destruct (tested_all_frame dl s) as (Ht & Hp & _).
    rewrite (batch_output_frame s _ _ Ht Hp).
    apply map_fmap_ext. intros k m _. simpl. by rewrite foldl_app.
Qed.

Lemma tested_all_trace dataloader s :
  trace (tested_all dataloader s) =
  trace s ++
  flat_map (λ b, [ev_forward false; ev_loss (batch_loss s b.1 b.2)]) dataloader.
Proof.
  induction dataloader as [|b dl IH] using rev_ind.
  - simpl. by rewrite app_nil_r.
  - rewrite tested_all_snoc. simpl. rewrite IH, flat_map_app, <- app_assoc.
    simpl. destruct (tested_all_frame dl s) as (Ht & Hp & _).
    by rewrite (batch_loss_frame s _ _ _ Ht Hp).
Qed.

Lemma evaluate_batches_placed dataloader logs s :
  placed s →
  evaluate_batches dataloader logs s =
  (Ok (match dataloader with
       | [] => logs
       | _ :: _ => Some (eval_logs (tested_all dataloader s))
       end), tested_all dataloader s).
Proof.
  revert logs s. induction dataloader as [|[xs y] dl IH]; intros logs s Hp.
  - reflexivity.
  - simpl. unfold bind. rewrite test_step_placed by done.
    rewrite IH by by apply tested_placed.
    destruct dl; reflexivity.
Qed.

(** Whatever happens, an evaluation pass leaves the parameters alone. *)
Lemma evaluate_batches_params dataloader logs s :
  params (evaluate_batches dataloader logs s).2 = params s.
Proof.
  revert logs s. induction dataloader as [|[xs y] dl IH]; intros logs s.
  - reflexivity.
  - simpl. unfold bind. destruct (decide (placed s)) as [Hp|Hp].
    + rewrite test_step_placed by done. by rewrite IH.
    + by rewrite test_step_misplaced.
Qed.

(** ** evaluate *)

(** The module at the start of a pass: the mode is set and both kinds of
    accumulators are reset. *)
Definition pass_start (train : bool) (s : State) : State :=
  set_metrics (metric_reset <$> metrics s)
    (set_loss_metric (MeanMetric_reset (loss_metric s)) (set_training train s)).

Lemma pass_start_placed train s : placed s → placed (pass_start train s).
Proof. intros Hp. exact Hp. Qed.

(** The module after a successful [evaluate]. *)
Definition evaluated (dataloader : Dataloader) (verbose : nat) (s : State) : State :=
  let s1 := tested_all dataloader (pass_start false s) in
  match verbose with
  | O => s1
  | S _ => set_trace (trace s1 ++ [ev_print_evaluation (eval_logs s1)]) s1
  end.

Lemma evaluate_empty verbose s :
  evaluate [] verbose s = (Raise (UnboundLocalError "logs"), pass_start false s).
Proof. unfold evaluate, reset_accumulators. run. by destruct verbose. Qed.

Lemma evaluate_placed dataloader verbose s :
  placed s → dataloader ≠ [] →
  evaluate dataloader verbose s =
  (Ok (eval_logs (tested_all dataloader (pass_start false s))),
   evaluated dataloader verbose s).
Proof.
  intros Hp Hne. unfold evaluate, reset_accumulators. run.
  change (set_metrics _ _) with (pass_start false s).
  rewrite evaluate_batches_placed by by apply pass_start_placed.
  destruct dataloader as [|b dl]; [done|].
  unfold evaluated. by destruct verbose.
Qed.

Lemma evaluate_params dataloader verbose s :
  params (evaluate dataloader verbose s).2 = params s.
Proof.
  unfold evaluate, reset_accumulators. run.
  change (set_metrics _ _) with (pass_start false s).
  pose proof (evaluate_batches_params dataloader None (pass_start false s)) as H.
  destruct (evaluate_batches dataloader None (pass_start false s)) as [[logs|e] s1];
    simpl in *; [|done].
  destruct verbose, logs; simpl; done.
Qed.

Lemma evaluated_frame dataloader verbose s :
  let s' := evaluated dataloader verbose s in
  params s' = params s ∧ grads s' = grads s ∧
  optimizer s' = optimizer s ∧ schedule s' = schedule s ∧
  logdir s' = logdir s ∧ _writers s' = _writers s ∧ device s' = device s ∧
  cuda_available s' = cuda_available s ∧ grad_enabled s' = grad_enabled s ∧
  files s' = files s.
Proof.
  destruct (tested_all_frame dataloader (pass_start false s)) as (_ & H).
  unfold evaluated. destruct verbose; simpl in *; exact H.
Qed.

Lemma evaluated_placed dataloader verbose s :
  placed s → placed (evaluated dataloader verbose s).
Proof.
  unfold placed. destruct (evaluated_frame dataloader verbose s) as (-> & H).
  destruct H as (_ & _ & _ & _ & _ & -> & _). done.
Qed.

Lemma evaluated_trace dataloader verbose s :
  trace (evaluated dataloader verbose s) =
  trace s ++
  flat_map (λ b, [ev_forward false;
                  ev_loss (batch_loss (pass_start false s) b.1 b.2)]) dataloader ++
  match verbose with
  | O => []
  | S _ => [ev_print_evaluation
              (eval_logs (tested_all dataloader (pass_start false s)))]
  end.
Proof.
  unfold evaluated. destruct verbose; simpl; rewrite tested_all_trace; simpl.
  - by rewrite app_nil_r.
  - by rewrite <- app_assoc.
Qed.

(** C3 (as amended). [evaluate] never changes a parameter, whatever the
    dataloader and even when it raises. On a dataloader with at least one
    batch (and a module whose parameters are where its inputs go) it makes
    one pass: per batch one forward pass with gradients disabled and one
    loss, nothing else but the final message; it returns the record made
    of the mean of the batch losses and of every metric, reset and then
    updated with each batch in order. On the empty dataloader it raises. *)
Theorem evaluate_keeps_parameters :
  (∀ dataloader verbose s,
     params (evaluate dataloader verbose s).2 = params s) ∧
  (∀ dataloader verbose s,
     placed s → dataloader ≠ [] →
     ∃ logs s',
       evaluate dataloader verbose s = (Ok logs, s') ∧
       trace s' = trace s ++
         flat_map (λ b, [ev_forward false;
                         ev_loss (batch_loss (set_training false s) b.1 b.2)])
           dataloader ++
         match verbose with O => [] | S _ => [ev_print_evaluation logs] end ∧
       logs = dict_or
         {[ "loss" := mean (eval_losses (set_training false s) dataloader) ]}
         (metric_compute <$>
            ((λ m, foldl (λ m b, metric_update m
                                   (batch_output (set_training false s) b.1) b.2)
                     (metric_reset m) dataloader) <$> metrics s))).
Proof.
  split; [apply evaluate_params|].
  intros dataloader verbose s Hp Hne.
  eexists _, _. split; [by apply evaluate_placed|]. split.
  - rewrite evaluated_trace. reflexivity.
  - unfold eval_logs.
    rewrite tested_all_loss_metric, tested_all_metrics. simpl.
    rewrite MeanMetric_running_mean. f_equal. f_equal.
    rewrite <- map_fmap_compose. reflexivity.
Qed.

(** ** fit and evaluate without a first batch or a first epoch *)

Lemma fit_no_epoch dataloader epochs dev_ callbacks verbose s :
  (epochs ≤ 0)%Z →
  fit dataloader epochs dev_ callbacks verbose s =
  (Raise (UnboundLocalError "logs"), s).
Proof.
  intros He. unfold fit, range.
  replace (Z.to_nat epochs) with 0%nat by lia. reflexivity.
Qed.

(** C9. [evaluate] on a dataloader without batches, and [fit] with no epoch
    to run (a count of zero, or below), raise the unbound-variable error of
    [logs] instead of returning a record. Hence a returned record means that
    there was a batch, respectively an epoch. *)
Theorem unbound_logs :
  (∀ verbose s,
     (evaluate [] verbose s).1 = Raise (UnboundLocalError "logs")) ∧
  (∀ dataloader dev_ callbacks verbose s,
     (fit dataloader 0 dev_ callbacks verbose s).1 =
     Raise (UnboundLocalError "logs")) ∧
  (∀ dataloader verbose s logs,
     (evaluate dataloader verbose s).1 = Ok logs → dataloader ≠ []) ∧
  (∀ dataloader epochs dev_ callbacks verbose s logs,
     (fit dataloader epochs dev_ callbacks verbose s).1 = Ok logs →
     (1 ≤ epochs)%Z).
Proof.
  split_and!.
  - intros. by rewrite evaluate_empty.
  - intros. by rewrite fit_no_epoch.
  - intros dataloader verbose s logs H ->. by rewrite evaluate_empty in H.
  - intros dataloader epochs dev_ callbacks verbose s logs H.
    destruct (decide (epochs ≤ 0)%Z) as [He|He]; [|lia].
    by rewrite fit_no_epoch in H.
Qed.

(** ** What add_logs does *)

(** Whether [add_logs] writes: [if logs and self.logdir]. *)
Definition writes (logs : Logs) (s : State) : bool :=
  bool_decide (logs ≠ ∅) && truthy (logdir s).

(** The writer of a stream: the one in the table, or else the one that
    would be created. *)
Definition writer_path (name : string) (s : State) : string :=
  match _writers s !! name with
  | Some w => w
  | None => path_join (default "" (logdir s)) name
  end.

(** What one call of [add_logs] does to the outside. *)
Definition log_events (name : string) (logs : Logs) (step : nat) (s : State)
    : list event :=
  if writes logs s then
    match _writers s !! name with
    | Some _ => []
    | None => [ev_writer name (writer_path name s)]
    end ++
    ((λ kv, ev_scalar (writer_path name s) kv.1 kv.2 step) <$> map_to_list logs) ++
    [ev_flush (writer_path name s)]
  else [].

(** The module after one call of [add_logs]. *)
Definition logged (name : string) (logs : Logs) (step : nat) (s : State) : State :=
  if writes logs s then
    set_trace (trace s ++ log_events name logs step s)
      (set_writers (<[name := writer_path name s]> (_writers s)) s)
  else s.

Lemma writer_known name w s :
  _writers s !! name = Some w → writer name s = (Ok w, s).
Proof. intros H. unfold writer. run. by rewrite H. Qed.

Lemma writer_new name d s :
  _writers s !! name = None → logdir s = Some d →
  writer name s =
  (Ok (path_join d name),
   set_writers (<[name := path_join d name]> (_writers s))
     (set_trace (trace s ++ [ev_writer name (path_join d name)]) s)).
Proof. intros H Hd. unfold writer. run. by rewrite H, Hd. Qed.

Lemma add_scalars_known name w step kvs s :
  _writers s !! name = Some w →
  for_each kvs (λ kv : string * Scalar,
    bind (writer name) (λ w, emit (ev_scalar w kv.1 kv.2 step))) s =
  (Ok tt, set_trace (trace s ++ ((λ kv, ev_scalar w kv.1 kv.2 step) <$> kvs)) s).
Proof.
  revert s. induction kvs as [|kv kvs IH]; intros s H; simpl.
  - unfold ret. rewrite app_nil_r. by destruct s.
  - unfold bind at 1 2. rewrite (writer_known name w) by done.
    unfold emit at 1, modify at 1.
    rewrite IH by done. simpl. by rewrite <- app_assoc.
Qed.

Lemma add_logs_logged name logs step s :
  add_logs name logs step s = (Ok tt, logged name logs step s).
Proof.
  unfold add_logs, logged, log_events, writes. unfold bind at 1, gets at 1.
  destruct (bool_decide (logs ≠ ∅)) eqn:Hl; simpl; [|done].
  destruct (logdir s) as [d|] eqn:Hd; simpl; [|done].
  destruct (negb (String.eqb d "")) eqn:Hne; simpl; [|done].
  unfold writer_path. rewrite Hd. simpl.
  destruct (_writers s !! name) as [w|] eqn:Hw.
  - unfold bind at 1. rewrite (add_scalars_known name w) by done.
    unfold bind. rewrite (writer_known name w) by done.
    unfold emit, modify. simpl. rewrite <- app_assoc, insert_id by done.
    by destruct s.
  - apply bool_decide_eq_true in Hl.
    destruct (map_to_list logs) as [|kv kvs] eqn:Hkvs.
    { by apply map_to_list_empty_iff in Hkvs. }
    simpl. unfold bind at 1 2 3. rewrite (writer_new name d) by done.
    unfold emit at 1, modify at 1.
    rewrite (add_scalars_known name (path_join d name)) by apply lookup_insert_eq.
    unfold bind. rewrite (writer_known name (path_join d name))
      by apply lookup_insert_eq.
    unfold emit, modify. simpl. rewrite <- !app_assoc. reflexivity.
Qed.

Lemma logged_frame name logs step s :
  let s' := logged name logs step s in
  training s' = training s ∧ params s' = params s ∧ grads s' = grads s ∧
  optimizer s' = optimizer s ∧ schedule s' = schedule s ∧
  loss_metric s' = loss_metric s ∧ metrics s' = metrics s ∧
  logdir s' = logdir s ∧ device s' = device s ∧
  cuda_available s' = cuda_available s ∧ grad_enabled s' = grad_enabled s ∧
  files s' = files s ∧
  trace s' = trace s ++ log_events name logs step s.
Proof.
  unfold logged, log_events. destruct (writes logs s); simpl.
  - done.
  - by rewrite app_nil_r.
Qed.









(** ** A training pass *)

(** The module after one batch of [fit]: the step, then the progress bar. *)
Definition fitted (epoch : nat) (xs : Input) (y : Target) (s : State) : State :=
  set_trace
    (trace (trained xs y s) ++ [ev_description epoch (train_logs (trained xs y s))])
    (trained xs y s).

Definition fitted_all (epoch : nat) (dataloader : Dataloader) (s : State) : State :=
  foldl (λ s b, fitted epoch b.1 b.2 s) s dataloader.




Lemma fitted_placed epoch xs y s : placed s → placed (fitted epoch xs y s).
Proof. intros Hp. apply (trained_placed xs y) in Hp. exact Hp. Qed.


Lemma fitted_all_frame epoch dataloader s :
  let s' := fitted_all epoch dataloader s in
  training s' = training s ∧ dom (params s') = dom (params s) ∧
  dom (metrics s') = dom (metrics s) ∧
  (is_Some (schedule s') ↔ is_Some (schedule s)) ∧
  logdir s' = logdir s ∧ _writers s' = _writers s ∧ device s' = device s ∧
  cuda_available s' = cuda_available s ∧ grad_enabled s' = grad_enabled s ∧
  files s' = files s.
Proof.
  revert s. induction dataloader as [|b dl IH]; intros s; [done|].
  simpl. destruct (IH (fitted epoch b.1 b.2 s)) as (-> & -> & -> & -> & IH').
  simpl. split; [done|]. split.
  { apply set_eq. intros k. rewrite !elem_of_dom, updated_params_lookup.
    by rewrite fmap_is_Some. }
  split; [apply dom_fmap_L|]. split; [|exact IH'].
  destruct (schedule s); split; intros [? ?]; eauto; done.
Qed.

Lemma fitted_all_placed epoch dataloader s :
  placed s → placed (fitted_all epoch dataloader s).
Proof.
  revert s. induction dataloader as [|b dl IH]; intros s Hp; [done|].
  simpl. by apply IH, fitted_placed.
Qed.

Lemma fit_batches_placed epoch dataloader logs s :
  placed s →
  fit_batches epoch dataloader logs s =
  (Ok (match dataloader with
       | [] => logs
       | _ :: _ => Some (train_logs (fitted_all epoch dataloader s))
       end), fitted_all epoch dataloader s).
Proof.
  revert logs s. induction dataloader as [|[xs y] dl IH]; intros logs s Hp.
  - reflexivity.
  - simpl. unfold bind at 1. rewrite train_step_placed by done.
    unfold bind at 1, emit, modify.
    rewrite IH by by apply (fitted_placed epoch xs y).
    destruct dl; reflexivity.
Qed.


(** ** An evaluation pass, batch by batch *)


Lemma fit_batches_nonempty epoch dataloader logs s :
  placed s → dataloader ≠ [] →
  fit_batches epoch dataloader logs s =
  (Ok (Some (train_logs (fitted_all epoch dataloader s))),
   fitted_all epoch dataloader s).
Proof.
  intros Hp Hne. rewrite fit_batches_placed by done. by destruct dataloader.
Qed.




(** ** An epoch of fit *)

(** The module after the training batches of an epoch. *)
Definition epoch_trained (dataloader : Dataloader) (epoch : nat) (s : State) : State :=
  fitted_all epoch dataloader (pass_start true s).

(** The record of the development data in an epoch: what [evaluate] returns
    after the epoch's training. *)
Definition epoch_dev_logs (dataloader d : Dataloader) (epoch : nat) (s : State) : Logs :=
  eval_logs (tested_all d (pass_start false (epoch_trained dataloader epoch s))).

(** The record of an epoch, as it stands after the [dev] evaluation. *)
Definition epoch_logs (dataloader : Dataloader) (dev_ : option Dataloader)
    (epoch : nat) (s : State) : Logs :=
  match dev_ with
  | Some d =>
      dict_or (train_logs (epoch_trained dataloader epoch s))
        (rekey (String.append "dev_") (epoch_dev_logs dataloader d epoch s))
  | None => train_logs (epoch_trained dataloader epoch s)
  end.

Definition train_part (l : Logs) : Logs :=
  filter (λ kv, ¬ startswith "dev_" kv.1) l.
Definition dev_part (l : Logs) : Logs :=
  rekey (drop_chars 4) (filter (λ kv, startswith "dev_" kv.1) l).

(** The module after an epoch. *)
Definition epoch_done (dataloader : Dataloader) (dev_ : option Dataloader)
    (callbacks : list nat) (verbose : nat) (epoch : nat) (s : State) : State :=
  let s1 := epoch_trained dataloader epoch s in
  let s2 := match dev_ with Some d => evaluated d 0 s1 | None => s1 end in
  let l := epoch_logs dataloader dev_ epoch s in
  let s3 := set_trace (trace s2 ++ ((λ cb, ev_callback cb epoch l) <$> callbacks)) s2 in
  let s4 := logged "train" (train_part l) (epoch + 1) s3 in
  let s5 := logged "dev" (dev_part l) (epoch + 1) s4 in
  match verbose with
  | O => s5
  | S _ => set_trace (trace s5 ++ [ev_print_epoch epoch l]) s5
  end.

Lemma callbacks_run callbacks epoch l s :
  for_each callbacks (λ callback : nat,
    bind (read_local "logs" (Some l)) (λ l, emit (ev_callback callback epoch l))) s =
  (Ok tt, set_trace (trace s ++ ((λ cb, ev_callback cb epoch l) <$> callbacks)) s).
Proof.
  revert s. induction callbacks as [|cb cbs IH]; intros s; simpl.
  - unfold ret. rewrite app_nil_r. by destruct s.
  - unfold bind at 1 2, read_local, ret, emit, modify. rewrite IH. simpl.
    by rewrite <- app_assoc.
Qed.

Lemma epoch_trained_placed dataloader epoch s :
  placed s → placed (epoch_trained dataloader epoch s).
Proof. intros Hp. by apply fitted_all_placed, pass_start_placed. Qed.

Lemma fit_epoch_placed dataloader dev_ callbacks verbose epoch logs s :
  placed s → dataloader ≠ [] → (∀ d, dev_ = Some d → d ≠ []) →
  fit_epoch dataloader dev_ callbacks verbose epoch logs s =
  (Ok (Some (epoch_logs dataloader dev_ epoch s)),
   epoch_done dataloader dev_ callbacks verbose epoch s).
Proof.
  intros Hp Hne Hdev. unfold fit_epoch, reset_accumulators.
  unfold bind at 1 2 3, modify.
  change (set_metrics _ _) with (pass_start true s).
  unfold bind at 1. rewrite fit_batches_nonempty by (done || by apply pass_start_placed).
  fold (epoch_trained dataloader epoch s).
  pose proof (epoch_trained_placed dataloader epoch s Hp) as Hp1.
  unfold epoch_done, epoch_logs, epoch_dev_logs.
  destruct dev_ as [d|].
  - unfold bind at 1 2 3, read_local at 1, ret at 1.
    rewrite evaluate_placed by eauto.
    unfold ret at 1. unfold bind at 1. rewrite callbacks_run.
    unfold bind at 1, read_local at 1, ret at 1.
    unfold bind at 1. rewrite add_logs_logged.
    unfold bind at 1. rewrite add_logs_logged.
    fold (train_part (dict_or (train_logs (epoch_trained dataloader epoch s))
      (rekey (String.append "dev_")
         (eval_logs (tested_all d (pass_start false (epoch_trained dataloader epoch s))))))).
    fold (dev_part (dict_or (train_logs (epoch_trained dataloader epoch s))
      (rekey (String.append "dev_")
         (eval_logs (tested_all d (pass_start false (epoch_trained dataloader epoch s))))))).
    by destruct verbose.
  - unfold bind at 1, ret at 1. unfold bind at 1. rewrite callbacks_run.
    unfold bind at 1, read_local at 1, ret at 1.
    unfold bind at 1. rewrite add_logs_logged.
    unfold bind at 1. rewrite add_logs_logged.
    fold (train_part (train_logs (epoch_trained dataloader epoch s))).
    fold (dev_part (train_logs (epoch_trained dataloader epoch s))).
    by destruct verbose.
Qed.

Lemma logged_placed name logs step s : placed s → placed (logged name logs step s).
Proof.
  unfold placed.
  destruct (logged_frame name logs step s) as (_ & -> & H).
  destruct H as (_&_&_&_&_&_& -> & _). done.
Qed.

Lemma epoch_done_placed dataloader dev_ callbacks verbose epoch s :
  placed s → placed (epoch_done dataloader dev_ callbacks verbose epoch s).
Proof.
  intros Hp. apply (epoch_trained_placed dataloader epoch) in Hp.
  unfold epoch_done.
  set (s2 := match dev_ with
             | Some d => evaluated d 0 (epoch_trained dataloader epoch s)
             | None => epoch_trained dataloader epoch s
             end).
  assert (Hp2 : placed s2) by (destruct dev_; [by apply evaluated_placed|done]).
  set (s3 := set_trace _ s2).
  assert (Hp3 : placed s3) by exact Hp2.
  destruct verbose; by repeat apply logged_placed.
Qed.

(** ** fit *)

(** The module after the epochs of a list, in order, and at the start of
    epoch [e] of a call of [fit]. *)
Definition epochs_done (dataloader : Dataloader) (dev_ : option Dataloader)
    (callbacks : list nat) (verbose : nat) (epochs : list nat) (s : State) : State :=
  foldl (λ s e, epoch_done dataloader dev_ callbacks verbose e s) s epochs.
Definition start_of_epoch (dataloader : Dataloader) (dev_ : option Dataloader)
    (callbacks : list nat) (verbose : nat) (e : nat) (s : State) : State :=
  epochs_done dataloader dev_ callbacks verbose (seq 0 e) s.

Lemma start_of_epoch_S dataloader dev_ callbacks verbose e s :
  start_of_epoch dataloader dev_ callbacks verbose (S e) s =
  epoch_done dataloader dev_ callbacks verbose e
    (start_of_epoch dataloader dev_ callbacks verbose e s).
Proof. unfold start_of_epoch, epochs_done. by rewrite seq_S, foldl_app. Qed.

Lemma epochs_done_placed dataloader dev_ callbacks verbose epochs s :
  placed s → placed (epochs_done dataloader dev_ callbacks verbose epochs s).
Proof.
  revert s. induction epochs as [|e es IH]; intros s Hp; [done|].
  simpl. by apply IH, epoch_done_placed.
Qed.

Lemma fit_epochs_placed dataloader dev_ callbacks verbose epochs e logs s :
  placed s → dataloader ≠ [] → (∀ d, dev_ = Some d → d ≠ []) →
  fit_epochs dataloader dev_ callbacks verbose (epochs ++ [e]) logs s =
  (Ok (Some (epoch_logs dataloader dev_ e
               (epochs_done dataloader dev_ callbacks verbose epochs s))),
   epochs_done dataloader dev_ callbacks verbose (epochs ++ [e]) s).
Proof.
  intros Hp Hne Hdev. revert logs s Hp.
  induction epochs as [|e' es IH]; intros logs s Hp; simpl.
  - unfold bind. by rewrite fit_epoch_placed.
  - unfold bind. rewrite fit_epoch_placed by done.
    by rewrite IH by by apply epoch_done_placed.
Qed.

Lemma fit_placed dataloader epochs dev_ callbacks verbose s :
  placed s → dataloader ≠ [] → (∀ d, dev_ = Some d → d ≠ []) →
  (1 ≤ epochs)%Z →
  fit dataloader epochs dev_ callbacks verbose s =
  (Ok (epoch_logs dataloader dev_ (Z.to_nat epochs - 1)
         (start_of_epoch dataloader dev_ callbacks verbose (Z.to_nat epochs - 1) s)),
   start_of_epoch dataloader dev_ callbacks verbose (Z.to_nat epochs) s).
Proof.
  intros Hp Hne Hdev He. unfold fit, range, start_of_epoch.
  destruct (Z.to_nat epochs) as [|n] eqn:En; [lia|].
  rewrite seq_S. simpl. rewrite Nat.sub_0_r.
  unfold bind. by rewrite fit_epochs_placed.
Qed.

(** The events of one epoch: the training and evaluation steps, then the
    callbacks, then the scalar logs and the console line. *)
Definition is_callback (e : event) : bool :=
  match e with ev_callback _ _ _ => true | _ => false end.
Definition is_step (e : event) : bool :=
  match e with
  | ev_zero_grad | ev_forward _ | ev_loss _ | ev_backward
  | ev_optimizer_step | ev_schedule_step => true
  | _ => false
  end.

Lemma fitted_all_no_callback epoch dataloader s :
  ∃ evs, trace (fitted_all epoch dataloader s) = trace s ++ evs ∧
         Forall (λ e, is_callback e = false) evs.
Proof.
  revert s. induction dataloader as [|[xs y] dl IH]; intros s.
  - exists []. simpl. by rewrite app_nil_r.
  - simpl. destruct (IH (fitted epoch xs y s)) as (evs & -> & Hevs).
    exists (train_step_events s xs y ++
            [ev_description epoch (train_logs (trained xs y s))] ++ evs).
    split; [simpl; by rewrite <- !app_assoc|].
    apply Forall_app. split.
    + unfold train_step_events. destruct (schedule s); by repeat constructor.
    + by constructor.
Qed.

Lemma evaluated_no_callback d verbose s :
  ∃ evs, trace (evaluated d verbose s) = trace s ++ evs ∧
         Forall (λ e, is_callback e = false) evs.
Proof.
  eexists. split; [apply evaluated_trace|].
  apply Forall_app. split.
  - induction d as [|b d IH]; [by constructor|]. simpl. by repeat constructor.
  - destruct verbose; by repeat constructor.
Qed.

Lemma log_events_no_step name logs step s :
  Forall (λ e, is_callback e = false ∧ is_step e = false)
    (log_events name logs step s).
Proof.
  unfold log_events. destruct (writes logs s); [|by constructor].
  apply Forall_app. split; [destruct (_writers s !! name); by repeat constructor|].
  apply Forall_app. split; [|by repeat constructor].
  apply Forall_fmap, Forall_true. done.
Qed.

Lemma epoch_done_events dataloader dev_ callbacks verbose epoch s :
  ∃ steps report,
    trace (epoch_done dataloader dev_ callbacks verbose epoch s) =
    trace s ++ steps ++
    ((λ cb, ev_callback cb epoch (epoch_logs dataloader dev_ epoch s)) <$> callbacks)
    ++ report ∧
    Forall (λ e, is_callback e = false) steps ∧
    Forall (λ e, is_callback e = false ∧ is_step e = false) report ∧
    (verbose ≠ 0%nat →
     last report = Some (ev_print_epoch epoch (epoch_logs dataloader dev_ epoch s))).
Proof.
  unfold epoch_done.
  set (l := epoch_logs dataloader dev_ epoch s).
  set (s1 := epoch_trained dataloader epoch s).
  set (s2 := match dev_ with Some d => evaluated d 0 s1 | None => s1 end).
  set (s3 := set_trace _ s2).
  set (s4 := logged "train" _ _ s3).
  set (s5 := logged "dev" _ _ s4).
  assert (∃ steps, trace s2 = trace s ++ steps ∧
                   Forall (λ e, is_callback e = false) steps) as (steps & H2 & Hs).
  { destruct (fitted_all_no_callback epoch dataloader (pass_start true s))
      as (evs1 & H1 & Hf1). fold (epoch_trained dataloader epoch s) in H1.
    fold s1 in H1. subst s2. destruct dev_ as [d|].
    - destruct (evaluated_no_callback d 0 s1) as (evs2 & -> & Hf2).
      exists (evs1 ++ evs2). rewrite H1. simpl. rewrite <- app_assoc.
      split; [done|]. by apply Forall_app.
    - exists evs1. by rewrite H1. }
  destruct (logged_frame "train" (train_part l) (epoch + 1) s3)
    as (_&_&_&_&_&_&_&_&_&_&_&_&H4). fold s4 in H4.
  destruct (logged_frame "dev" (dev_part l) (epoch + 1) s4)
    as (_&_&_&_&_&_&_&_&_&_&_&_&H5). fold s5 in H5.
  exists steps,
    (log_events "train" (train_part l) (epoch + 1) s3 ++
     log_events "dev" (dev_part l) (epoch + 1) s4 ++
     match verbose with O => [] | S _ => [ev_print_epoch epoch l] end).
  split_and!.
  - destruct verbose; simpl; rewrite H5, H4; subst s3; simpl; rewrite H2;
      rewrite <- ?app_assoc; by rewrite ?app_nil_r.
  - exact Hs.
  - apply Forall_app. split; [apply log_events_no_step|].
    apply Forall_app. split; [apply log_events_no_step|].
    destruct verbose; by repeat constructor.
  - intros Hv. destruct verbose; [done|]. by rewrite !app_assoc, last_snoc.
Qed.

Lemma rekey_dev_lookup {V} (m : gmap string V) k :
  rekey (String.append "dev_") m !! ("dev_" +:+ k) = m !! k.
Proof. unfold rekey. apply (lookup_kmap (String.append "dev_")). Qed.

Lemma rekey_dev_other {V} (m : gmap string V) k :
  startswith "dev_" k = false → rekey (String.append "dev_") m !! k = None.
Proof.
  intros Hk. unfold rekey. apply (lookup_kmap_None (String.append "dev_")).
  intros i ->. unfold startswith in Hk. by destruct i.
Qed.

Lemma epoch_logs_dev dataloader d epoch s k v :
  epoch_dev_logs dataloader d epoch s !! k = Some v →
  epoch_logs dataloader (Some d) epoch s !! ("dev_" +:+ k) = Some v.
Proof.
  intros H. unfold epoch_logs. by rewrite dict_or_lookup, rekey_dev_lookup, H.
Qed.

Lemma epoch_logs_train dataloader dev_ epoch s k :
  startswith "dev_" k = false →
  epoch_logs dataloader dev_ epoch s !! k =
  train_logs (epoch_trained dataloader epoch s) !! k.
Proof.
  intros H. unfold epoch_logs. destruct dev_ as [d|]; [|done].
  by rewrite dict_or_lookup, rekey_dev_other.
Qed.

(** C4 (as amended). A call of [fit] for at least one epoch, on a training
    dataloader with at least one batch (and a [dev] dataloader, when one is
    given, with at least one batch; the parameters being where the inputs
    go), returns the record of its final epoch. The record of an epoch is
    the record of the last training step of the epoch, to which the
    results of [evaluate] on [dev] in that epoch are added, each under its
    name prefixed by "dev_". In every epoch, once training and evaluation
    are over and before anything is logged, every callback is called once,
    in order, with the module, the index of the epoch counted from zero,
    and the record of the epoch. *)
Theorem fit_returns_final_record dataloader epochs dev_ callbacks verbose s :
  placed s → dataloader ≠ [] → (∀ d, dev_ = Some d → d ≠ []) →
  (1 ≤ epochs)%Z →
  let n := Z.to_nat epochs in
  let at_start e := start_of_epoch dataloader dev_ callbacks verbose e s in
  let record e := epoch_logs dataloader dev_ e (at_start e) in
  fit dataloader epochs dev_ callbacks verbose s =
    (Ok (record (n - 1)%nat), at_start n) ∧
  (∀ e logs0, (e < n)%nat →
     fit_epoch dataloader dev_ callbacks verbose e logs0 (at_start e) =
     (Ok (Some (record e)), at_start (S e))) ∧
  (∀ e k, (e < n)%nat → startswith "dev_" k = false →
     record e !! k =
     train_logs (fitted_all e dataloader (pass_start true (at_start e))) !! k) ∧
  (∀ e d, (e < n)%nat → dev_ = Some d →
     ∃ dev_logs s',
       evaluate d 0 (fitted_all e dataloader (pass_start true (at_start e))) =
         (Ok dev_logs, s') ∧
       ∀ k v, dev_logs !! k = Some v → record e !! ("dev_" +:+ k) = Some v) ∧
  (∀ e, (e < n)%nat →
     ∃ steps report,
       trace (at_start (S e)) =
         trace (at_start e) ++ steps ++
         ((λ cb, ev_callback cb e (record e)) <$> callbacks) ++ report ∧
       Forall (λ ev, is_callback ev = false) steps ∧
       Forall (λ ev, is_callback ev = false ∧ is_step ev = false) report).
Proof.
  intros Hp Hne Hdev He n at_start record.
  assert (Hpe : ∀ e, placed (at_start e))
    by (intros e; by apply epochs_done_placed).
  split_and!.
  - by apply fit_placed.
  - intros e logs0 _. subst at_start record. simpl.
    rewrite start_of_epoch_S. by apply fit_epoch_placed.
  - intros e k _ Hk. subst record. simpl.
    exact (epoch_logs_train dataloader dev_ e (at_start e) k Hk).
  - intros e d _ ->. eexists _, _. split.
    + apply evaluate_placed; [|by eapply Hdev].
      apply fitted_all_placed, pass_start_placed, Hpe.
    + intros k v Hk. subst record. simpl.
      exact (epoch_logs_dev dataloader d e (at_start e) k v Hk).
  - intros e _. subst at_start record. simpl. rewrite start_of_epoch_S.
    destruct (epoch_done_events dataloader dev_ callbacks verbose e
                (start_of_epoch dataloader dev_ callbacks verbose e s))
      as (steps & report & H1 & H2 & H3 & _).
    eauto.
Qed.

(** ** predict, and weights saved and loaded *)

Definition wrap (as_numpy : bool) : Pred → Prediction :=
  if as_numpy then numpy_array else tensor.

Lemma predict_step_placed xs s :
  placed s →
  predict_step xs s =
  (Ok (batch_output s xs), set_trace (trace s ++ [ev_forward false]) s).
Proof.
  intros Hp. unfold predict_step, no_grad, forward. simpl.
  destruct (decide _) as [|n]; [|destruct n; exact Hp]. by destruct s.
Qed.

Lemma predict_step_misplaced xs s :
  ¬ placed s → predict_step xs s = (Raise DeviceMismatch, s).
Proof.
  intros Hp. unfold predict_step, no_grad, forward. simpl.
  destruct (decide _) as [p|]; [destruct Hp; exact p|]. by destruct s.
Qed.

Lemma predict_batches_placed dataloader as_numpy predictions s :
  placed s →
  (predict_batches dataloader as_numpy predictions s).1 =
  Ok (predictions ++
      flat_map (λ xs, wrap as_numpy <$> batch_output s xs) dataloader).
Proof.
  revert predictions s. induction dataloader as [|xs dl IH];
    intros predictions s Hp; simpl.
  - by rewrite app_nil_r.
  - unfold bind. rewrite predict_step_placed by done.
    rewrite IH by exact Hp. by rewrite <- app_assoc.
Qed.

(** The predictions are a function of the contents of the parameters. *)
Lemma predict_placed dataloader as_numpy s :
  placed s →
  (predict dataloader as_numpy s).1 =
  Ok (flat_map (λ xs, wrap as_numpy <$> net false (data <$> params s) xs)
        dataloader).
Proof.
  intros Hp. unfold predict. unfold bind, modify.
  by rewrite predict_batches_placed.
Qed.

Lemma predict_misplaced xs dataloader as_numpy s :
  ¬ placed s →
  (predict (xs :: dataloader) as_numpy s).1 = Raise DeviceMismatch.
Proof.
  intros Hp. unfold predict. unfold bind at 1, modify. simpl.
  unfold bind. by rewrite predict_step_misplaced.
Qed.

(** The module after [load_weights] has found the file [saved] and loaded
    it: the device is set; every parameter has the saved contents, as they
    have come through the selected device, and stays where it was. *)
Definition loaded (saved : gmap string Tensor) (device_ : DeviceArg) (s : State)
    : State :=
  set_params
    (map_imap (λ k p, Some (match saved !! k with
                            | Some t => copy_ p (to_device
                                (select_device (cuda_available s) device_) t)
                            | None => p
                            end)) (params s))
    (set_device (select_device (cuda_available s) device_) s).

Lemma load_weights_found path device_ saved s :
  files s !! path = Some saved → dom saved = dom (params s) →
  loadable (cuda_available s) (select_device (cuda_available s) device_) = true →
  load_weights path device_ s = (Ok tt, loaded saved device_ s).
Proof.
  intros Hf Hd Hl. unfold load_weights, load_state_dict. run. rewrite Hf.
  rewrite Hl, orb_true_r. simpl.
  rewrite decide_True by by rewrite dom_fmap_L.
  unfold loaded. f_equal. f_equal. apply map_eq. intros k.
  rewrite !map_lookup_imap. destruct (params s !! k); simpl; [|done].
  rewrite lookup_fmap. by destruct (saved !! k).
Qed.

Lemma loaded_lookup saved device_ s k :
  dom saved = dom (params s) →
  params (loaded saved device_ s) !! k =
  match params s !! k, saved !! k with
  | Some p, Some t =>
      Some {| data := settle (dev p)
                        (settle (select_device (cuda_available s) device_)
                           (data t));
              dev := dev p |}
  | _, _ => None
  end.
Proof.
  intros Hd. simpl. rewrite map_lookup_imap.
  destruct (params s !! k) as [p|] eqn:Hp; simpl; [|done].
  assert (is_Some (saved !! k)) as [t ->]; [|done].
  apply elem_of_dom. rewrite Hd. apply elem_of_dom. eauto.
Qed.

(** Saving, going on (training, say: the same parameters with other
    contents, the file left alone), then loading with a device that the
    file can be loaded on, all devices keeping contents as they are: the
    contents are those that were saved, and every parameter is where it was
    before the load. *)
Lemma save_load_contents path device_ s s1 :
  files s1 !! path = Some (params s) → dom (params s1) = dom (params s) →
  loadable (cuda_available s1) (select_device (cuda_available s1) device_) = true →
  plain (select_device (cuda_available s1) device_) →
  map_Forall (λ _ p, plain (dev p)) (params s1) →
  let s2 := (load_weights path device_ s1).2 in
  (load_weights path device_ s1).1 = Ok tt ∧
  data <$> params s2 = data <$> params s ∧
  dev <$> params s2 = dev <$> params s1 ∧
  device s2 = select_device (cuda_available s1) device_.
Proof.
  intros Hf Hd Hl Hsel Hplain s2. subst s2.
  rewrite (load_weights_found path device_ (params s)) by done.
  cbn [fst snd]. split; [done|]. split_and!.
  - apply map_eq. intros k. rewrite !lookup_fmap, loaded_lookup by done.
    destruct (params s !! k) as [t|] eqn:Ht; simpl.
    + assert (is_Some (params s1 !! k)) as [p Hk].
      { apply elem_of_dom. rewrite Hd. apply elem_of_dom. eauto. }
      rewrite Hk. simpl.
      by rewrite (settle_plain (dev p)), settle_plain by eauto.
    + by destruct (params s1 !! k).
  - apply map_eq. intros k. rewrite !lookup_fmap, loaded_lookup by done.
    destruct (params s1 !! k) as [p|] eqn:Hp1; simpl; [|done].
    assert (is_Some (params s !! k)) as [t ->]; [|done].
    apply elem_of_dom. rewrite <- Hd. apply elem_of_dom. eauto.
  - reflexivity.
Qed.

(** When the device that [load_weights] selects is the one the parameters
    are on (a device that the file can be loaded on, and that keeps
    contents as they are), [predict] gives what it gave when the weights
    were saved. *)
Lemma save_load_predict path device_ dataloader as_numpy s s1 :
  placed s →
  files s1 !! path = Some (params s) → dom (params s1) = dom (params s) →
  loadable (cuda_available s1) (select_device (cuda_available s1) device_) = true →
  plain (select_device (cuda_available s1) device_) →
  map_Forall (λ _ p, dev p = select_device (cuda_available s1) device_)
    (params s1) →
  (predict dataloader as_numpy (load_weights path device_ s1).2).1 =
  (predict dataloader as_numpy s).1.
Proof.
  intros Hp Hf Hd Hl Hsel Hdev.
  assert (Hplain : map_Forall (λ _ p, plain (dev p)) (params s1)).
  { intros k p Hk. by rewrite (Hdev k p Hk). }
  destruct (save_load_contents path device_ s s1 Hf Hd Hl Hsel Hplain)
    as (_ & Hdata & Hdevs & Hs2).
  rewrite !predict_placed; [by rewrite Hdata|done|].
  intros k p Hk. rewrite Hs2.
  assert ((dev <$> params s1) !! k = Some (dev p)) as Hk1
    by by rewrite <- Hdevs, lookup_fmap, Hk.
  rewrite lookup_fmap in Hk1. destruct (params s1 !! k) as [p1|] eqn:Hp1; [|done].
  simpl in Hk1. injection Hk1 as <-. by apply (Hdev k p1).
Qed.

(** ** The log directory and the console *)

(** Training and evaluation never look at the log directory: setting it
    commutes with every step. *)
Lemma trained_set_logdir ld xs y s :
  trained xs y (set_logdir ld s) = set_logdir ld (trained xs y s).
Proof. reflexivity. Qed.






(** * Further properties of the module *)

(** ** predict *)

(** The module after a successful [predict]: in evaluation mode, with one
    forward pass per batch on record, gradients disabled. *)
Definition predicted (dataloader : list Input) (s : State) : State :=
  set_trace (trace s ++ replicate (length dataloader) (ev_forward false))
    (set_training false s).

Lemma predict_batches_state dataloader as_numpy predictions s :
  placed s →
  predict_batches dataloader as_numpy predictions s =
  (Ok (predictions ++
       flat_map (λ xs, wrap as_numpy <$> batch_output s xs) dataloader),
   set_trace (trace s ++ replicate (length dataloader) (ev_forward false)) s).
Proof.
  revert predictions s. induction dataloader as [|xs dl IH];
    intros predictions s Hp.
  - simpl. rewrite !app_nil_r. by destruct s.
  - simpl. unfold bind. rewrite predict_step_placed by done.
    rewrite IH by exact Hp. simpl. rewrite <- !app_assoc. reflexivity.
Qed.

(** X1. [predict] returns the outputs of the network in evaluation mode, batch
    after batch and example after example; [as_numpy] only chooses how each
    is handed over. Without batches the result is the empty list. *)
Theorem predict_outputs dataloader as_numpy s :
  placed s →
  predict dataloader as_numpy s =
  (Ok (flat_map (λ xs, wrap as_numpy <$> net false (data <$> params s) xs)
         dataloader),
   predicted dataloader s).
Proof.
  intros Hp. unfold predict. unfold bind, modify.
  rewrite predict_batches_state by exact Hp. reflexivity.
Qed.

Lemma predict_batches_frame dataloader as_numpy predictions s :
  let s' := (predict_batches dataloader as_numpy predictions s).2 in
  training s' = training s ∧ params s' = params s ∧ grads s' = grads s ∧
  optimizer s' = optimizer s ∧ schedule s' = schedule s ∧
  loss_metric s' = loss_metric s ∧ metrics s' = metrics s ∧
  device s' = device s ∧ grad_enabled s' = grad_enabled s ∧
  files s' = files s.
Proof.
  destruct (decide (placed s)) as [Hp|Hp].
  - cbv zeta. by rewrite predict_batches_state.
  - destruct dataloader as [|xs dl]; [done|].
    cbv zeta. simpl. unfold bind. by rewrite predict_step_misplaced.
Qed.

(** X2. Whether it returns or raises, [predict] leaves the module in evaluation
    mode and touches neither the parameters, nor the optimizer and the
    schedule, nor the gradients, nor the accumulators of [fit] and
    [evaluate], nor the autograd switch, nor the saved files. *)
Theorem predict_frame dataloader as_numpy s :
  let s' := (predict dataloader as_numpy s).2 in
  training s' = false ∧ params s' = params s ∧ grads s' = grads s ∧
  optimizer s' = optimizer s ∧ schedule s' = schedule s ∧
  loss_metric s' = loss_metric s ∧ metrics s' = metrics s ∧
  device s' = device s ∧ grad_enabled s' = grad_enabled s ∧
  files s' = files s.
Proof.
  cbv zeta. unfold predict. unfold bind at 1, modify.
  exact (predict_batches_frame dataloader as_numpy [] (set_training false s)).
Qed.

(** ** The updates of a call of fit *)

(** The events that change what is learnt: the reset of the gradients, the
    backward pass, and the updates of the optimizer and of the schedule. *)
Definition is_update (e : event) : bool :=
  match e with
  | ev_zero_grad | ev_backward | ev_optimizer_step | ev_schedule_step => true
  | _ => false
  end.
Definition updates_of (evs : list event) : list event :=
  List.filter is_update evs.

(** Those of one training step. *)
Definition step_updates (s : State) : list event :=
  [ev_zero_grad; ev_backward; ev_optimizer_step] ++
  match schedule s with
  | Some _ => [ev_schedule_step]
  | None => []
  end.

Lemma updates_of_app evs1 evs2 :
  updates_of (evs1 ++ evs2) = updates_of evs1 ++ updates_of evs2.
Proof. apply List.filter_app. Qed.

Lemma updates_of_train_step s xs y :
  updates_of (train_step_events s xs y) = step_updates s.
Proof. unfold train_step_events, step_updates. by destruct (schedule s). Qed.

Lemma step_updates_frame s s' :
  (is_Some (schedule s') ↔ is_Some (schedule s)) →
  step_updates s' = step_updates s.
Proof.
  unfold step_updates. intros [H1 H2].
  destruct (schedule s) as [sch|], (schedule s') as [sch'|]; try done.
  - destruct H2 as [? ?]; [eauto|done].
  - destruct H1 as [? ?]; [eauto|done].
Qed.

Lemma fitted_all_updates epoch dataloader s :
  ∃ evs,
    trace (fitted_all epoch dataloader s) = trace s ++ evs ∧
    updates_of evs = concat (replicate (length dataloader) (step_updates s)).
Proof.
  revert s. induction dataloader as [|[xs y] dl IH]; intros s.
  - exists []. simpl. by rewrite app_nil_r.
  - simpl. destruct (IH (fitted epoch xs y s)) as (evs & -> & Hevs).
    exists (train_step_events s xs y ++
            [ev_description epoch (train_logs (trained xs y s))] ++ evs).
    split; [simpl; by rewrite <- !app_assoc|].
    rewrite !updates_of_app, updates_of_train_step, Hevs.
    rewrite (step_updates_frame s (fitted epoch xs y s)); [done|].
    simpl. destruct (schedule s); split; intros [? ?]; eauto; done.
Qed.

Lemma updates_of_evaluated d verbose s :
  ∃ evs, trace (evaluated d verbose s) = trace s ++ evs ∧ updates_of evs = [].
Proof.
  eexists. split; [apply evaluated_trace|].
  rewrite updates_of_app. replace (updates_of (match verbose with
    | O => [] | S _ => _ end)) with (@nil event) by by destruct verbose.
  rewrite app_nil_r. induction d as [|b d IH]; [done|exact IH].
Qed.

Lemma updates_of_log_events name logs step s :
  updates_of (log_events name logs step s) = [].
Proof.
  unfold log_events. destruct (writes logs s); [|done].
  rewrite !updates_of_app.
  replace (updates_of (match _writers s !! name with
    | Some _ => [] | None => _ end)) with (@nil event)
    by by destruct (_writers s !! name).
  simpl. rewrite app_nil_r.
  induction (map_to_list logs) as [|kv kvs IH]; [done|exact IH].
Qed.

Lemma updates_of_callbacks epoch (l : Logs) (callbacks : list nat) :
  updates_of ((λ cb, ev_callback cb epoch l) <$> callbacks) = [].
Proof. induction callbacks as [|cb cbs IH]; [done|exact IH]. Qed.

(** The mode an epoch ends in: [evaluate] has switched to evaluation. *)
Definition mode_after (dev_ : option Dataloader) : bool :=
  match dev_ with
  | Some _ => false
  | None => true
  end.

(** What an epoch leaves as it was, and the mode it ends in. *)
Lemma epoch_done_frame dataloader dev_ callbacks verbose epoch s :
  let s' := epoch_done dataloader dev_ callbacks verbose epoch s in
  training s' = mode_after dev_ ∧
  dom (params s') = dom (params s) ∧
  dom (metrics s') = dom (metrics s) ∧
  (is_Some (schedule s') ↔ is_Some (schedule s)) ∧
  logdir s' = logdir s ∧ device s' = device s ∧
  cuda_available s' = cuda_available s ∧ grad_enabled s' = grad_enabled s ∧
  files s' = files s.
Proof.
  cbv zeta. unfold epoch_done.
  set (l := epoch_logs dataloader dev_ epoch s).
  set (s1 := epoch_trained dataloader epoch s).
  set (s2 := match dev_ with Some d => evaluated d 0 s1 | None => s1 end).
  set (s3 := set_trace _ s2).
  set (s4 := logged "train" _ _ s3).
  set (s5 := logged "dev" _ _ s4).
  destruct (fitted_all_frame epoch dataloader (pass_start true s))
    as (T1 & P1 & M1 & S1 & L1 & _ & D1 & C1 & G1 & F1).
  fold (epoch_trained dataloader epoch s) in T1, P1, M1, S1, L1, D1, C1, G1, F1.
  fold s1 in T1, P1, M1, S1, L1, D1, C1, G1, F1.
  assert (training s2 = mode_after dev_ ∧
          dom (params s2) = dom (params s) ∧
          dom (metrics s2) = dom (metrics s) ∧
          (is_Some (schedule s2) ↔ is_Some (schedule s)) ∧
          logdir s2 = logdir s ∧ device s2 = device s ∧
          cuda_available s2 = cuda_available s ∧
          grad_enabled s2 = grad_enabled s ∧ files s2 = files s) as H2.
  { subst s2. destruct dev_ as [d|].
    - destruct (evaluated_frame d 0 s1)
        as (-> & _ & _ & -> & -> & _ & -> & -> & -> & ->).
      split_and!; try done.
      + unfold evaluated.
        by destruct (tested_all_frame d (pass_start false s1)) as (-> & _).
      + unfold evaluated. rewrite tested_all_metrics, dom_fmap_L. simpl.
        rewrite dom_fmap_L, M1. simpl. apply dom_fmap_L.
    - split_and!; try done. rewrite M1. simpl. apply dom_fmap_L. }
  destruct (logged_frame "train" (train_part l) (epoch + 1) s3)
    as (T4&P4&_&_&S4&_&M4&L4&D4&C4&G4&F4&_). fold s4 in T4,P4,S4,M4,L4,D4,C4,G4,F4.
  destruct (logged_frame "dev" (dev_part l) (epoch + 1) s4)
    as (T5&P5&_&_&S5&_&M5&L5&D5&C5&G5&F5&_). fold s5 in T5,P5,S5,M5,L5,D5,C5,G5,F5.
  assert (training s5 = training s2 ∧ params s5 = params s2 ∧
          metrics s5 = metrics s2 ∧ schedule s5 = schedule s2 ∧
          logdir s5 = logdir s2 ∧ device s5 = device s2 ∧
          cuda_available s5 = cuda_available s2 ∧
          grad_enabled s5 = grad_enabled s2 ∧ files s5 = files s2) as H5.
  { rewrite T5,P5,S5,M5,L5,D5,C5,G5,F5,T4,P4,S4,M4,L4,D4,C4,G4,F4. done. }
  destruct H5 as (E1 & E2 & E3 & E4 & E5 & E6 & E7 & E8 & E9).
  destruct verbose; simpl; rewrite E1, E2, E3, E4, E5, E6, E7, E8, E9; exact H2.
Qed.

Lemma epoch_done_updates dataloader dev_ callbacks verbose epoch s :
  ∃ evs,
    trace (epoch_done dataloader dev_ callbacks verbose epoch s) = trace s ++ evs ∧
    updates_of evs = concat (replicate (length dataloader) (step_updates s)).
Proof.
  unfold epoch_done.
  set (l := epoch_logs dataloader dev_ epoch s).
  set (s1 := epoch_trained dataloader epoch s).
  set (s2 := match dev_ with Some d => evaluated d 0 s1 | None => s1 end).
  set (s3 := set_trace _ s2).
  set (s4 := logged "train" _ _ s3).
  set (s5 := logged "dev" _ _ s4).
  assert (∃ evs, trace s2 = trace s ++ evs ∧
            updates_of evs = concat (replicate (length dataloader) (step_updates s)))
    as (evs2 & H2 & Hu).
  { destruct (fitted_all_updates epoch dataloader (pass_start true s))
      as (evs1 & H1 & Hu1). fold (epoch_trained dataloader epoch s) in H1.
    fold s1 in H1. subst s2. destruct dev_ as [d|].
    - destruct (updates_of_evaluated d 0 s1) as (evs & -> & Hev).
      exists (evs1 ++ evs). rewrite H1. simpl. rewrite <- app_assoc.
      split; [done|]. by rewrite updates_of_app, Hev, app_nil_r.
    - exists evs1. by rewrite H1. }
  destruct (logged_frame "train" (train_part l) (epoch + 1) s3)
    as (_&_&_&_&_&_&_&_&_&_&_&_&H4). fold s4 in H4.
  destruct (logged_frame "dev" (dev_part l) (epoch + 1) s4)
    as (_&_&_&_&_&_&_&_&_&_&_&_&H5). fold s5 in H5.
  exists (evs2 ++ ((λ cb, ev_callback cb epoch l) <$> callbacks) ++
          log_events "train" (train_part l) (epoch + 1) s3 ++
          log_events "dev" (dev_part l) (epoch + 1) s4 ++
          match verbose with O => [] | S _ => [ev_print_epoch epoch l] end).
  split.
  - destruct verbose; simpl; rewrite H5, H4; subst s3; simpl; rewrite H2;
      rewrite <- ?app_assoc; by rewrite ?app_nil_r.
  - rewrite !updates_of_app, !updates_of_log_events, Hu.
    rewrite updates_of_callbacks.
    replace (updates_of (match verbose with O => [] | S _ => _ end))
      with (@nil event) by by destruct verbose.
    by rewrite !app_nil_r.
Qed.

Lemma epochs_done_updates dataloader dev_ callbacks verbose epochs s :
  ∃ evs,
    trace (epochs_done dataloader dev_ callbacks verbose epochs s) = trace s ++ evs ∧
    updates_of evs =
    concat (replicate (length epochs * length dataloader) (step_updates s)).
Proof.
  revert s. induction epochs as [|e es IH]; intros s.
  - exists []. simpl. by rewrite app_nil_r.
  - simpl.
    destruct (epoch_done_updates dataloader dev_ callbacks verbose e s)
      as (evs1 & H1 & Hu1).
    destruct (IH (epoch_done dataloader dev_ callbacks verbose e s))
      as (evs2 & H2 & Hu2).
    exists (evs1 ++ evs2). split; [by rewrite H2, H1, app_assoc|].
    rewrite updates_of_app, Hu1, Hu2, replicate_add, concat_app.
    rewrite (step_updates_frame s (epoch_done dataloader dev_ callbacks verbose e s));
      [done|].
    by destruct (epoch_done_frame dataloader dev_ callbacks verbose e s)
      as (_ & _ & _ & H & _).
Qed.

Lemma epochs_done_frame dataloader dev_ callbacks verbose epochs s :
  let s' := epochs_done dataloader dev_ callbacks verbose epochs s in
  training s' = (if decide (epochs = []) then training s
                 else mode_after dev_) ∧
  dom (params s') = dom (params s) ∧
  dom (metrics s') = dom (metrics s) ∧
  (is_Some (schedule s') ↔ is_Some (schedule s)) ∧
  logdir s' = logdir s ∧ device s' = device s ∧
  cuda_available s' = cuda_available s ∧ grad_enabled s' = grad_enabled s ∧
  files s' = files s.
Proof.
  cbv zeta. induction epochs as [|e es IH] using rev_ind; [done|].
  unfold epochs_done in *. rewrite foldl_app. simpl.
  set (s1 := foldl _ s es) in *.
  destruct (epoch_done_frame dataloader dev_ callbacks verbose e s1)
    as (-> & -> & -> & -> & -> & -> & -> & -> & ->).
  destruct IH as (_ & IH).
  rewrite decide_False by by destruct es. done.
Qed.

(** X3. A call of [fit] that runs to its end makes, per epoch and per training
    batch, one reset of the gradients, one backward pass and one optimizer
    update, in this order, followed by one schedule update when a schedule
    is configured; evaluation on [dev], callbacks and logging add none. *)
Theorem fit_updates dataloader epochs dev_ callbacks verbose s :
  placed s → dataloader ≠ [] → (∀ d, dev_ = Some d → d ≠ []) →
  (1 ≤ epochs)%Z →
  ∃ evs,
    trace (fit dataloader epochs dev_ callbacks verbose s).2 = trace s ++ evs ∧
    updates_of evs =
    concat (replicate (Z.to_nat epochs * length dataloader) (step_updates s)).
Proof.
  intros Hp Hne Hdev He. rewrite fit_placed by done. cbn [snd].
  unfold start_of_epoch.
  destruct (epochs_done_updates dataloader dev_ callbacks verbose
              (seq 0 (Z.to_nat epochs)) s) as (evs & H & Hu).
  exists evs. split; [exact H|]. by rewrite Hu, length_seq.
Qed.

(** X4. After a call of [fit] that runs to its end the module is in evaluation
    mode when a [dev] dataloader was given, and in training mode when not.
    The names of the parameters and of the metrics, the log directory, the
    device, the autograd switch and the saved files are as before, and the
    parameters are still on the device. *)
Theorem fit_leaves_mode dataloader epochs dev_ callbacks verbose s :
  placed s → dataloader ≠ [] → (∀ d, dev_ = Some d → d ≠ []) →
  (1 ≤ epochs)%Z →
  let s' := (fit dataloader epochs dev_ callbacks verbose s).2 in
  training s' = mode_after dev_ ∧
  placed s' ∧
  dom (params s') = dom (params s) ∧
  dom (metrics s') = dom (metrics s) ∧
  (is_Some (schedule s') ↔ is_Some (schedule s)) ∧
  logdir s' = logdir s ∧ device s' = device s ∧
  grad_enabled s' = grad_enabled s ∧ files s' = files s.
Proof.
  intros Hp Hne Hdev He. cbv zeta. rewrite fit_placed by done. cbn [snd].
  unfold start_of_epoch.
  destruct (epochs_done_frame dataloader dev_ callbacks verbose
              (seq 0 (Z.to_nat epochs)) s)
    as (T & P & M' & S' & L & D & _ & G & F).
  rewrite decide_False in T
    by (destruct (Z.to_nat epochs) eqn:E; [lia|done]).
  split_and!; try done. by apply epochs_done_placed.
Qed.

(** ** The running loss of fit and of evaluate *)







(** ** fit on a dataloader without batches *)

(** X5. When the training dataloader yields no batch, the first epoch of [fit]
    raises as soon as it reads [logs]: nothing has been evaluated on [dev],
    no callback has been called and nothing has been logged; the module has
    only been put in training mode and its accumulators reset. *)
Theorem fit_without_training_batch epochs dev_ callbacks verbose s :
  (1 ≤ epochs)%Z →
  fit [] epochs dev_ callbacks verbose s =
  (Raise (UnboundLocalError "logs"), pass_start true s).
Proof.
  intros He. unfold fit, range.
  destruct (Z.to_nat epochs) as [|n] eqn:En; [lia|].
  simpl. unfold fit_epoch, reset_accumulators.
  unfold bind at 1 2 3 4 5, modify. simpl.
  change (set_metrics _ _) with (pass_start true s).
  destruct dev_ as [d|]; [reflexivity|].
  destruct callbacks as [|cb cbs]; reflexivity.
Qed.

Lemma fit_epoch_without_dev_batch dataloader callbacks verbose epoch logs s :
  placed s → dataloader ≠ [] →
  fit_epoch dataloader (Some []) callbacks verbose epoch logs s =
  (Raise (UnboundLocalError "logs"),
   pass_start false (epoch_trained dataloader epoch s)).
Proof.
  intros Hp Hne. unfold fit_epoch, reset_accumulators.
  unfold bind at 1 2 3, modify.
  change (set_metrics _ _) with (pass_start true s).
  unfold bind at 1. rewrite fit_batches_nonempty by (done || by apply pass_start_placed).
  fold (epoch_trained dataloader epoch s).
  unfold bind at 1 2 3, read_local at 1, ret at 1.
  by rewrite evaluate_empty.
Qed.

(** X6. When the [dev] dataloader yields no batch, [fit] raises in its first
    epoch, but only once the whole training pass of that epoch has updated
    the parameters: what is left is the module after that pass, switched to
    evaluation mode with its accumulators reset, no callback called. *)
Theorem fit_without_dev_batch dataloader epochs callbacks verbose s :
  placed s → dataloader ≠ [] → (1 ≤ epochs)%Z →
  fit dataloader epochs (Some []) callbacks verbose s =
    (Raise (UnboundLocalError "logs"),
     pass_start false (epoch_trained dataloader 0 s)) ∧
  ∃ evs,
    trace (pass_start false (epoch_trained dataloader 0 s)) = trace s ++ evs ∧
    updates_of evs = concat (replicate (length dataloader) (step_updates s)) ∧
    Forall (λ e, is_callback e = false) evs.
Proof.
  intros Hp Hne He. split.
  - unfold fit, range.
    destruct (Z.to_nat epochs) as [|n] eqn:En; [lia|].
    simpl. unfold bind. by rewrite fit_epoch_without_dev_batch.
  - destruct (fitted_all_updates 0 dataloader (pass_start true s))
      as (evs & H & Hu).
    destruct (fitted_all_no_callback 0 dataloader (pass_start true s))
      as (evs' & H' & Hc).
    rewrite H in H'. apply app_inv_head in H'. subst evs'.
    exists evs. split_and!; done.
Qed.

(** ** What evaluate never does, and what its loss depends on *)

Lemma evaluate_batches_frame dataloader logs s :
  let s' := (evaluate_batches dataloader logs s).2 in
  training s' = training s ∧ grads s' = grads s ∧
  optimizer s' = optimizer s ∧ schedule s' = schedule s ∧
  logdir s' = logdir s ∧ _writers s' = _writers s ∧ device s' = device s ∧
  grad_enabled s' = grad_enabled s ∧ files s' = files s ∧
  ∃ evs, trace s' = trace s ++ evs ∧ updates_of evs = [].
Proof.
  cbv zeta. destruct (decide (placed s)) as [Hp|Hp].
  - rewrite evaluate_batches_placed by done. cbn [snd].
    destruct (tested_all_frame dataloader s)
      as (-> & _ & -> & -> & -> & -> & -> & -> & _ & -> & ->).
    split_and!; try done.
    eexists. split; [apply tested_all_trace|].
    induction dataloader as [|b d IH]; [done|exact IH].
  - destruct dataloader as [|[xs y] dl].
    + split_and!; try done. exists []. by rewrite app_nil_r.
    + simpl. unfold bind. rewrite test_step_misplaced by done.
      split_and!; try done. exists []. by rewrite app_nil_r.
Qed.

(** X7. Whether it returns or raises, [evaluate] leaves the module in evaluation
    mode, makes no backward pass and no update, and touches neither the
    gradients, nor the optimizer and the schedule, nor the writers, the
    device, the autograd switch and the saved files. *)
Theorem evaluate_frame dataloader verbose s :
  let s' := (evaluate dataloader verbose s).2 in
  training s' = false ∧ grads s' = grads s ∧
  optimizer s' = optimizer s ∧ schedule s' = schedule s ∧
  logdir s' = logdir s ∧ _writers s' = _writers s ∧ device s' = device s ∧
  grad_enabled s' = grad_enabled s ∧ files s' = files s ∧
  ∃ evs, trace s' = trace s ++ evs ∧ updates_of evs = [].
Proof.
  cbv zeta. unfold evaluate, reset_accumulators. run.
  change (set_metrics _ _) with (pass_start false s).
  pose proof (evaluate_batches_frame dataloader None (pass_start false s)) as H.
  cbv zeta in H.
  destruct (evaluate_batches dataloader None (pass_start false s))
    as [[logs|e] s1]; cbn [snd] in H; [|exact H].
  destruct H as (T & G & O & S' & L & W & D & GE & F & evs & Ht & Hu).
  destruct verbose as [|v], logs as [l|]; simpl;
    split_and!; try done; try (by exists evs).
  exists (evs ++ [ev_print_evaluation l]).
  split; [by rewrite Ht, app_assoc|]. by rewrite updates_of_app, Hu.
Qed.

(** X8. The loss that [evaluate] reports is the running mean of the losses
    of the batches under the current parameters, taken in the order of the
    batches. What the accumulators held before the call, the mode the
    module was in and the verbosity have no influence: two calls on the
    same batches with the same parameters report the same loss. *)
Theorem evaluate_loss_of_batches dataloader verbose verbose' s s' :
  placed s → placed s' → params s' = params s → dataloader ≠ [] →
  "loss" ∉ dom (metrics s) → "loss" ∉ dom (metrics s') →
  ∃ logs logs',
    (evaluate dataloader verbose s).1 = Ok logs ∧
    (evaluate dataloader verbose' s').1 = Ok logs' ∧
    logs !! "loss" = Some (mean (eval_losses (set_training false s) dataloader)) ∧
    logs' !! "loss" = logs !! "loss".
Proof.
  intros Hp Hp' Hps Hne Hl Hl'.
  assert (Hloss : ∀ dl s0, "loss" ∉ dom (metrics s0) →
            eval_logs (tested_all dl (pass_start false s0)) !! "loss" =
            Some (mean (eval_losses (set_training false s0) dl))).
  { intros dl s0 H0. rewrite eval_logs_loss.
    - rewrite tested_all_loss_metric.
      change (loss_metric (pass_start false s0))
        with (MeanMetric_reset (loss_metric s0)).
      rewrite MeanMetric_running_mean. reflexivity.
    - rewrite tested_all_metrics, dom_fmap_L. simpl. by rewrite dom_fmap_L. }
  eexists _, _. rewrite !evaluate_placed by done. cbn [fst].
  split_and!; [done|done|by apply Hloss|].
  rewrite !Hloss by done. f_equal.
  unfold eval_losses, batch_loss, batch_output. simpl. by rewrite Hps.
Qed.

(** ** The records sent to the two log streams *)

Lemma substring_all (r : string) : String.substring 0 (String.length r) r = r.
Proof. induction r as [|c r IH]; simpl; [done|by rewrite IH]. Qed.

Lemma drop_chars_dev (r : string) : drop_chars 4 ("dev_" +:+ r) = r.
Proof.
  unfold drop_chars.
  change ("dev_" +:+ r) with (String "d" (String "e" (String "v" (String "_" r)))).
  cbn [String.length Nat.sub String.substring].
  rewrite Nat.sub_0_r. apply substring_all.
Qed.

Lemma prefix_drop_chars (p k : string) :
  String.prefix p k = true → k = p +:+ drop_chars (String.length p) k.
Proof.
  revert k. induction p as [|a p IH]; intros k H.
  - unfold drop_chars. cbn [String.length]. rewrite Nat.sub_0_r, substring_all.
    reflexivity.
  - destruct k as [|b k]; [discriminate|].
    cbn [String.prefix] in H.
    destruct (Ascii.ascii_dec a b) as [<-|]; [|discriminate].
    change (String a p +:+ drop_chars (String.length (String a p)) (String a k))
      with (String a (p +:+ drop_chars (String.length p) k)).
    f_equal. by apply IH.
Qed.

Lemma startswith_dev (k : string) :
  startswith "dev_" k = true → k = "dev_" +:+ drop_chars 4 k.
Proof. apply (prefix_drop_chars "dev_"). Qed.

Lemma startswith_dev_append (r : string) : startswith "dev_" ("dev_" +:+ r) = true.
Proof. by destruct r. Qed.

Lemma train_part_lookup (l : Logs) k :
  train_part l !! k = if startswith "dev_" k then None else l !! k.
Proof.
  unfold train_part. apply option_eq. intros v.
  rewrite map_lookup_filter_Some. cbn [fst].
  destruct (startswith "dev_" k); cbn [Is_true]; [split; [tauto|done]|tauto].
Qed.

Lemma dev_part_lookup (l : Logs) k : dev_part l !! k = l !! ("dev_" +:+ k).
Proof.
  unfold dev_part, rekey, kmap.
  set (m := filter (λ kv : string * Scalar, startswith "dev_" kv.1) l).
  assert (Hnd : NoDup ((prod_map (drop_chars 4) id <$> map_to_list m).*1)).
  { rewrite <- list_fmap_compose.
    rewrite (list_fmap_ext _ (drop_chars 4 ∘ fst) (map_to_list m)) by by intros ? [].
    rewrite list_fmap_compose. apply NoDup_fmap_2_strong.
    - intros x y Hx Hy Hxy.
      apply list_elem_of_fmap in Hx as [[x' vx] [-> Hx]].
      apply list_elem_of_fmap in Hy as [[y' vy] [-> Hy]].
      apply elem_of_map_to_list, map_lookup_filter_Some in Hx as [_ Hx].
      apply elem_of_map_to_list, map_lookup_filter_Some in Hy as [_ Hy].
      cbn [fst] in Hx, Hy, Hxy |- *. apply Is_true_true in Hx, Hy.
      by rewrite (startswith_dev x'), (startswith_dev y'), Hxy.
    - apply NoDup_fst_map_to_list. }
  apply option_eq. intros v.
  rewrite <- (elem_of_list_to_map _ k v Hnd), list_elem_of_fmap. split.
  - intros [[k' v'] [[= -> ->] Hk]].
    apply elem_of_map_to_list, map_lookup_filter_Some in Hk as [Hk Hs].
    cbn [fst] in Hs. apply Is_true_true in Hs.
    by rewrite <- (startswith_dev k').
  - intros Hk. exists ("dev_" +:+ k, v). cbn [prod_map fst snd id].
    rewrite drop_chars_dev.
    split; [done|]. apply elem_of_map_to_list, map_lookup_filter_Some.
    split; [done|]. cbn [fst]. by rewrite startswith_dev_append.
Qed.

(** X9. The two dictionaries an epoch of [fit] hands to [add_logs]. The one for
    the stream "train" holds the entries of the record whose key does not
    start with "dev_", as they are; the one for "dev" holds the others under
    their key less its first four characters. So an entry reaches "dev"
    under the key [k] exactly when the record has it under "dev_" + [k],
    wherever it comes from. *)
Theorem log_streams_lookup (l : Logs) k :
  filter (λ kv, ¬ startswith "dev_" kv.1) l !! k =
    (if startswith "dev_" k then None else l !! k) ∧
  rekey (drop_chars 4) (filter (λ kv, startswith "dev_" kv.1) l) !! k =
    l !! ("dev_" +:+ k).
Proof. split; [apply train_part_lookup|apply dev_part_lookup]. Qed.

(** X10. When no metric has a name that starts with "dev_", the stream "train"
    receives the record of the last training step of the epoch and the
    stream "dev" the record that [evaluate] returned on [dev]: prefixing
    the keys and cutting the prefix off again gives the record back. *)
Theorem fit_log_streams dataloader dev_ epoch s :
  (∀ k, k ∈ dom (metrics s) → startswith "dev_" k = false) →
  train_part (epoch_logs dataloader dev_ epoch s) =
    train_logs (epoch_trained dataloader epoch s) ∧
  dev_part (epoch_logs dataloader dev_ epoch s) =
    match dev_ with
    | Some d => epoch_dev_logs dataloader d epoch s
    | None => ∅
    end.
Proof.
  intros Hm.
  assert (Ht : ∀ k v, train_logs (epoch_trained dataloader epoch s) !! k = Some v →
                      startswith "dev_" k = false).
  { intros k v Hk. assert (k ∈ dom (train_logs (epoch_trained dataloader epoch s)))
      as Hd by (apply elem_of_dom; eauto).
    rewrite train_logs_dom in Hd.
    destruct (fitted_all_frame epoch dataloader (pass_start true s))
      as (_ & _ & Hdm & _).
    fold (epoch_trained dataloader epoch s) in Hdm.
    rewrite Hdm in Hd. simpl in Hd. rewrite dom_fmap_L in Hd.
    apply elem_of_union in Hd as [Hd|Hd]; [|by apply Hm].
    apply elem_of_union in Hd as [Hd|Hd].
    - by apply elem_of_singleton in Hd as ->.
    - destruct (schedule _); [by apply elem_of_singleton in Hd as ->|].
      by apply elem_of_empty in Hd. }
  split; apply map_eq; intros k.
  - rewrite train_part_lookup. destruct (startswith "dev_" k) eqn:E.
    + destruct (train_logs _ !! k) as [v|] eqn:Hk; [|done].
      apply Ht in Hk. congruence.
    + by apply epoch_logs_train.
  - rewrite dev_part_lookup. unfold epoch_logs. destruct dev_ as [d|].
    + by rewrite dict_or_lookup, rekey_dev_lookup;
        destruct (epoch_dev_logs dataloader d epoch s !! k) eqn:Hk;
        [|destruct (train_logs _ !! ("dev_" +:+ k)) as [v|] eqn:Hk';
          [apply Ht in Hk'; rewrite startswith_dev_append in Hk'|]].
    + rewrite lookup_empty.
      destruct (train_logs _ !! ("dev_" +:+ k)) as [v|] eqn:Hk'; [|done].
      apply Ht in Hk'. by rewrite startswith_dev_append in Hk'.
Qed.

(** ** Weights: failure, and the way back to a checkpoint *)


(** X12. Loading right after saving. When the selected device is one the
    file can be loaded on (with "auto" it always is) and the devices
    involved keep contents as they are (the CPU and CUDA do), the call
    changes nothing but the device attribute: every parameter keeps its
    contents and its place. When the file cannot be loaded on the selected
    device, the call raises, with the device attribute set and the
    parameters untouched. *)
Theorem save_load_same path device_ s :
  let d := select_device (cuda_available s) device_ in
  (loadable (cuda_available s) d = true → plain d →
   map_Forall (λ _ p, plain (dev p)) (params s) →
   load_weights path device_ (save_weights path s).2 =
   (Ok tt, set_device d (save_weights path s).2)) ∧
  (loadable (cuda_available s) d = false → params s ≠ ∅ →
   load_weights path device_ (save_weights path s).2 =
   (Raise DeviceUnavailable, set_device d (save_weights path s).2)) ∧
  loadable (cuda_available s) (select_device (cuda_available s) auto) = true ∧
  plain (select_device (cuda_available s) auto).
Proof.
  cbv zeta. split_and!.
  - intros Hl Hd Hps. unfold save_weights. run.
    rewrite (load_weights_found path device_ (params s))
      by (simpl; by rewrite ?lookup_insert_eq).
    f_equal. unfold loaded. simpl.
    replace (map_imap _ (params s)) with (params s); [by destruct s|].
    apply map_eq. intros k. rewrite map_lookup_imap.
    destruct (params s !! k) as [[x d]|] eqn:Hk; simpl; [|done].
    unfold copy_. simpl.
    pose proof (Hps k _ Hk) as Hpd. simpl in Hpd.
    by rewrite (settle_plain d), settle_plain.
  - intros Hl Hne. unfold save_weights, load_weights. run.
    rewrite lookup_insert_eq, Hl, orb_false_r.
    rewrite bool_decide_eq_false_2; [done|].
    intros He. apply dom_empty_inv_L in He. done.
  - apply loadable_select_auto.
  - apply plain_select_auto.
Qed.

(** X13. A checkpoint: the weights are saved, [fit] trains on, the weights are
    loaded again, on devices that keep contents as they are and with a
    selected device that the file can be loaded on. The load succeeds; the
    contents of the parameters are those of the moment of the save,
    whatever training has made of them; the parameters stay on the device
    of the module, and the state of the optimizer is the one training has
    left, not an earlier one. When the device selected by the load is the
    device of the module, [predict] gives again what it gave at the moment
    of the save. *)
Theorem checkpoint_restores_contents
    path device_ dataloader epochs dev_ callbacks verbose s :
  placed s → dataloader ≠ [] → (∀ d, dev_ = Some d → d ≠ []) →
  (1 ≤ epochs)%Z →
  loadable (cuda_available s) (select_device (cuda_available s) device_) = true →
  plain (select_device (cuda_available s) device_) → plain (device s) →
  let s1 := (fit dataloader epochs dev_ callbacks verbose
               (save_weights path s).2).2 in
  let s2 := (load_weights path device_ s1).2 in
  (load_weights path device_ s1).1 = Ok tt ∧
  data <$> params s2 = data <$> params s ∧
  map_Forall (λ _ p, dev p = device s) (params s2) ∧
  optimizer s2 = optimizer s1 ∧
  (select_device (cuda_available s) device_ = device s →
   ∀ inputs as_numpy,
     (predict inputs as_numpy s2).1 = (predict inputs as_numpy s).1).
Proof.
  intros Hp Hne Hdev He Hl Hsd Hds s1 s2.
  set (s0 := (save_weights path s).2).
  assert (Hp0 : placed s0) by exact Hp.
  assert (Hs1 : s1 = start_of_epoch dataloader dev_ callbacks verbose
                       (Z.to_nat epochs) s0).
  { subst s1. by rewrite fit_placed. }
  destruct (epochs_done_frame dataloader dev_ callbacks verbose
              (seq 0 (Z.to_nat epochs)) s0)
    as (_ & P & _ & _ & _ & D & C & _ & F).
  fold (start_of_epoch dataloader dev_ callbacks verbose (Z.to_nat epochs) s0)
    in P, D, C, F.
  rewrite <- Hs1 in P, D, C, F.
  assert (Hp1 : placed s1).
  { rewrite Hs1. by apply epochs_done_placed. }
  assert (Hf : files s1 !! path = Some (params s)).
  { rewrite F. subst s0. unfold save_weights. run. apply lookup_insert_eq. }
  assert (Hd : dom (params s1) = dom (params s)) by exact P.
  assert (Hl1 : loadable (cuda_available s1)
                  (select_device (cuda_available s1) device_) = true)
    by (rewrite C; exact Hl).
  assert (Hsd1 : plain (select_device (cuda_available s1) device_))
    by (rewrite C; exact Hsd).
  assert (Hplain : map_Forall (λ _ p, plain (dev p)) (params s1)).
  { intros k p Hk. rewrite (Hp1 k p Hk), D. exact Hds. }
  destruct (save_load_contents path device_ s s1 Hf Hd Hl1 Hsd1 Hplain)
    as (Hok & Hdata & Hdevs & Hsel).
  fold s2 in Hdata, Hdevs, Hsel.
  assert (Hon : map_Forall (λ _ p, dev p = device s) (params s2)).
  { intros k p Hk.
    assert ((dev <$> params s1) !! k = Some (dev p)) as Hk1
      by by rewrite <- Hdevs, lookup_fmap, Hk.
    rewrite lookup_fmap in Hk1.
    destruct (params s1 !! k) as [p1|] eqn:Hk2; [|done].
    simpl in Hk1. injection Hk1 as <-.
    rewrite (Hp1 k p1 Hk2). exact D. }
  split_and!; try done.
  - subst s2. by rewrite (load_weights_found path device_ (params s)).
  - intros Hsame inputs as_numpy.
    rewrite !predict_placed; [by rewrite Hdata|done|].
    intros k p Hk. rewrite Hsel, C. simpl.
    rewrite Hsame. by apply (Hon k p).
Qed.

(** ** writer *)

(** X14. The writer of a stream is created at most once: a call that returns
    leaves the module in a state where the same call returns the same
    writer and does nothing. The method raises exactly when the stream has
    no writer yet and no log directory is configured; the module is then
    unchanged. An empty string as log directory is accepted here, although
    [add_logs] treats it as none. *)
Theorem writer_once name s :
  (∀ w s1, writer name s = (Ok w, s1) →
     writer name s1 = (Ok w, s1) ∧
     _writers s1 = <[name := w]> (_writers s)) ∧
  (∀ e, (writer name s).1 = Raise e ↔
     e = TypeError ∧ _writers s !! name = None ∧ logdir s = None) ∧
  (_writers s !! name = None → logdir s = None →
   writer name s = (Raise TypeError, s)).
Proof.
  split_and!.
  - intros w s1 H. destruct (_writers s !! name) as [w0|] eqn:Hw.
    + rewrite (writer_known name w0) in H by done. injection H as <- <-.
      split; [by apply writer_known|]. by rewrite insert_id.
    + destruct (logdir s) as [d|] eqn:Hd.
      * rewrite (writer_new name d) in H by done. injection H as <- <-.
        split; [|done]. apply writer_known. simpl. apply lookup_insert_eq.
      * unfold writer in H. revert H. run. by rewrite Hw, Hd.
  - intros e. unfold writer. run.
    destruct (_writers s !! name) as [w0|]; simpl.
    { split; [discriminate|]. intros (_ & H & _). discriminate H. }
    destruct (logdir s); simpl.
    + split; [discriminate|]. intros (_ & _ & H). discriminate H.
    + split; [by intros [= <-]|by intros (-> & _)].
  - intros Hw Hd. unfold writer. run. by rewrite Hw, Hd.
Qed.

(** ** configure, then predict *)

End TrainableModule.

(** * A small instance, to run the model on *)

(** One integer weight ["w"]; a batch is one number [x] with its gold answer
    [y], the prediction is [w * x], the loss the distance to [y]. The one
    metric counts exact answers. The numbers are exact rationals, none of
    them NaN; besides the CPU and CUDA the only device that takes tensors
    is "meta", which keeps nothing of them and gives nothing back. *)
Definition toy : Backend := {|
  Scalar := Qc;
  s_zero := 0;
  s_one := 1;
  s_add := Qcplus;
  s_mul := Qcmult;
  s_div := Qcdiv;
  s_isnan := λ _, false;
  s_cast := λ v, v;
  Data := Z;
  accepts := λ name, String.eqb name "meta";
  loads := λ _, false;
  arrive := λ _ _, 0%Z;
  Input := Z;
  Target := Z;
  Pred := Z;
  Grads := Z;
  Optimizer := Z;
  Schedule := Z;
  Metric := Z * Z;
  net := λ _ ps x, [(default 0 (ps !! "w") * x)%Z];
  criterion := λ y_pred y, Qc_of_Z (Z.abs (default 0 (head y_pred) - y))%Z;
  gradient := λ _ ps x y, (Z.sgn (default 0 (ps !! "w") * x - y))%Z;
  accumulate := λ old g, (default 0 old + g)%Z;
  opt_update := λ rate g _ w, (w - rate * default 0 g)%Z;
  opt_next := λ rate _, rate;
  sched_next := λ sch rate, ((sch + 1)%Z, rate);
  last_lr := Qc_of_Z;
  metric_reset := λ _, (0, 0)%Z;
  metric_update := λ m y_pred y,
    ((m.1 + if decide (head y_pred = Some y) then 1 else 0)%Z, (m.2 + 1)%Z);
  metric_compute := λ m, Qc_of_Z m.1 / Qc_of_Z m.2;
|}.

#[local] Existing Instance toy.

(** A module before [configure]: the weight is on the CPU, where the
    constructor puts it, and the machine has CUDA; the attributes that
    [configure] sets hold placeholders. *)
Definition toy_new : State :=
  mkState true {[ "w" := {| data := 2%Z; dev := cpu |} ]} None 1%Z None
    MeanMetric_new ∅ None ∅ cpu true true ∅ [].

(** The same module configured: one metric, a log directory, the device
    chosen by hand. *)
Definition toy_configured : State :=
  (configure 1%Z (Some 0%Z) {[ "accuracy" := (0, 0)%Z ]} (Some "logs") (explicit cpu)
     toy_new).2.

Definition toy_data : list (Input * Target) := [(3, 5); (1, 1)]%Z.

Lemma toy_configured_placed : placed toy_configured.
Proof. apply configure_placed, movable_usable. reflexivity. Defined.

(** ** The theorems at work on the small instance *)

Lemma toy_loss_not_metric : "loss" ∉ dom (metrics toy_configured).
Proof. apply not_elem_of_dom. vm_compute. reflexivity. Defined.


(** C3 on a dataloader of two batches. *)
Lemma evaluate_keeps_parameters_witness :
  placed toy_configured ∧ toy_data ≠ [] ∧
  ∃ logs s',
    evaluate toy_data 1 toy_configured = (Ok logs, s') ∧
    params s' = params toy_configured.
Proof.
  split; [exact toy_configured_placed|]. split; [discriminate|].
  destruct (evaluate_keeps_parameters (B := toy)) as [Hframe Hpass].
  destruct (Hpass toy_data 1%nat toy_configured toy_configured_placed)
    as (logs & s' & He & _); [discriminate|].
  exists logs, s'. split; [exact He|].
  pose proof (Hframe toy_data 1%nat toy_configured) as Hf.
  rewrite He in Hf. exact Hf.
Defined.

(** C3 as it was stated fails on the empty dataloader: no record comes
    back. *)
Lemma evaluate_empty_raises :
  (evaluate [] 1 toy_configured).1 = Raise (UnboundLocalError "logs") ∧
  ¬ ∃ logs, (evaluate [] 1 toy_configured).1 = Ok logs.
Proof.
  rewrite evaluate_empty. split; [reflexivity|]. intros [logs H]. discriminate.
Qed.

(** C4 on two epochs, with development data and one callback. *)
Lemma fit_returns_final_record_witness :
  placed toy_configured ∧ toy_data ≠ [] ∧
  (∀ d, Some toy_data = Some d → d ≠ []) ∧ (1 ≤ 2)%Z ∧
  ∃ logs s',
    fit toy_data 2 (Some toy_data) [7%nat] 1 toy_configured = (Ok logs, s') ∧
    fit_epoch toy_data (Some toy_data) [7%nat] 1 1 None
      (start_of_epoch toy_data (Some toy_data) [7%nat] 1 1 toy_configured) =
    (Ok (Some logs), s').
Proof.
  assert (Hd : ∀ d, Some toy_data = Some d → d ≠ [])
    by (intros d [= <-]; discriminate).
  split; [exact toy_configured_placed|]. split; [discriminate|].
  split; [exact Hd|]. split; [lia|].
  destruct (fit_returns_final_record (B := toy) toy_data 2 (Some toy_data) [7%nat] 1%nat
              toy_configured toy_configured_placed)
    as (Hfit & Hepoch & _); [discriminate|exact Hd|lia|].
  eexists _, _. split; [exact Hfit|].
  apply (Hepoch 1%nat None). simpl. lia.
Defined.

(** C4 as it was stated fails on a training dataloader without batches:
    the one epoch ends in the unbound-variable error. *)
Lemma fit_empty_dataloader_raises :
  (fit [] 1 None [] 0 toy_configured).1 = Raise (UnboundLocalError "logs") ∧
  ¬ ∃ logs, (fit [] 1 None [] 0 toy_configured).1 = Ok logs.
Proof.
  assert (H : (fit [] 1 None [] 0 toy_configured).1 =
              Raise (UnboundLocalError "logs")) by (vm_compute; reflexivity).
  split; [exact H|]. rewrite H. intros [logs H']. discriminate.
Qed.

(** C5 on one batch. *)
Lemma train_step_sequence_witness :
  placed toy_configured ∧
  ∃ logs s',
    train_step (B := toy) 3%Z 5%Z toy_configured = (Ok logs, s') ∧
    trace s' = [ev_zero_grad; ev_forward true; ev_loss (Qc_of_Z 1); ev_backward;
                ev_optimizer_step; ev_schedule_step] ∧
    logs !! "loss" = Some (MeanMetric_compute (loss_metric s')).
Proof.
  split; [exact toy_configured_placed|].
  destruct (train_step_sequence (B := toy) 3%Z 5%Z toy_configured
              toy_configured_placed)
    as (logs & s' & Hs & Ht & _ & _ & _ & Hl & _).
  exists logs, s'. split; [exact Hs|]. split.
  - rewrite Ht. reflexivity.
  - apply Hl. exact toy_loss_not_metric.
Defined.

(** A module whose one metric is called "loss". *)
Definition toy_clash : State :=
  (configure 1%Z None {[ "loss" := (0, 0)%Z ]} None (explicit cpu) toy_new).2.


(** C5 as it was stated fails there: the running loss is 1, and the record
    holds the metric, 0, under "loss" and nothing else. *)
Lemma train_step_metric_named_loss :
  ∃ logs s',
    train_step (B := toy) 3%Z 5%Z toy_clash = (Ok logs, s') ∧
    MeanMetric_compute (loss_metric s') = 1 ∧
    logs = {[ "loss" := 0 ]} ∧
    ∀ k, logs !! k ≠ Some (MeanMetric_compute (loss_metric s')).
Proof.
  eexists _, _.
  split; [apply train_step_placed, configure_placed, movable_usable;
          reflexivity|].
  assert (H1 : MeanMetric_compute (loss_metric (trained (B := toy) 3%Z 5%Z toy_clash)) = 1)
    by (apply Qc_is_canon; vm_compute; reflexivity).
  assert (H2 : train_logs (trained (B := toy) 3%Z 5%Z toy_clash) = {[ "loss" := 0 ]}).
  { apply map_eq. intros k. destruct (decide (k = "loss")) as [->|Hk].
    - rewrite lookup_singleton_eq. unfold train_logs.
      rewrite dict_or_lookup.
      vm_compute. f_equal; try (apply Qc_is_canon; reflexivity).
    - rewrite lookup_singleton_ne by done. apply not_elem_of_dom.
      assert (dom (train_logs (trained (B := toy) 3%Z 5%Z toy_clash)) =
              {[ "loss" ]}) as -> by (vm_compute; reflexivity).
      by apply not_elem_of_singleton. }
  split; [exact H1|]. split; [exact H2|].
  intros k. rewrite H1, H2. destruct (decide (k = "loss")) as [->|Hk].
  - rewrite lookup_singleton_eq. intros H. vm_compute in H. discriminate.
  - by rewrite lookup_singleton_ne.
Qed.

(** C9 from the other side: a record came back, so there was a batch and
    an epoch. *)
Lemma unbound_logs_witness :
  (∃ logs, (evaluate toy_data 0 toy_configured).1 = Ok logs ∧ toy_data ≠ []) ∧
  (∃ logs, (fit toy_data 1 None [] 0 toy_configured).1 = Ok logs ∧ (1 ≤ 1)%Z).
Proof.
  destruct (unbound_logs (B := toy)) as (_ & _ & Hev & Hfit).
  split.
  - eexists. split; [|discriminate].
    rewrite evaluate_placed; [reflexivity|exact toy_configured_placed|].
    discriminate.
  - assert (E : ∃ logs, (fit toy_data 1 None [] 0 toy_configured).1 = Ok logs).
    { eexists. rewrite fit_placed; [reflexivity|..];
        try discriminate; try lia; exact toy_configured_placed. }
    destruct E as [logs E]. exists logs. split; [exact E|].
    exact (Hfit _ _ _ _ _ _ _ E).
Defined.


(** ** Weights saved, then loaded with the default device (C2) *)

(** The configured module was put on the CPU by hand, on a machine with
    CUDA. [load_weights] with its default ["auto"] selects CUDA, restores
    the contents of the weight and leaves it on the CPU: the next [predict]
    sends its inputs to [self.device] and the forward pass fails, where
    before the save it gave a prediction. *)
Definition toy_saved : State := (save_weights "weights.pt" toy_configured).2.
Definition toy_reloaded : State := (load_weights "weights.pt" auto toy_saved).2.

Theorem load_weights_leaves_parameters_behind :
  (predict [3%Z] true toy_configured).1 = Ok [numpy_array 6%Z] ∧
  (load_weights "weights.pt" auto toy_saved).1 = Ok tt ∧
  data <$> params toy_reloaded = data <$> params toy_configured ∧
  device toy_reloaded = cuda ∧
  dev <$> params toy_reloaded = {[ "w" := cpu ]} ∧
  ¬ placed toy_reloaded ∧
  (predict [3%Z] true toy_reloaded).1 = Raise DeviceMismatch.
Proof.
  assert (Hn : ¬ placed toy_reloaded).
  { intros H. specialize (H "w" {| data := 2%Z; dev := cpu |}).
    assert (cpu = cuda) by (apply H; vm_compute; reflexivity). discriminate. }
  split_and!.
  - vm_compute; reflexivity.
  - vm_compute; reflexivity.
  - vm_compute; reflexivity.
  - vm_compute; reflexivity.
  - vm_compute; reflexivity.
  - exact Hn.
  - by apply predict_misplaced.
Qed.

(** ** The further properties at work on the small instance *)

Lemma predict_outputs_witness :
  placed toy_configured ∧
  predict [3; 1]%Z true toy_configured =
  (Ok [numpy_array 6%Z; numpy_array 2%Z], predicted [3; 1]%Z toy_configured).
Proof.
  split; [exact toy_configured_placed|].
  exact (predict_outputs (B := toy) [3; 1]%Z true toy_configured
           toy_configured_placed).
Defined.

Lemma toy_dev_nonempty : ∀ d, Some toy_data = Some d → d ≠ [].
Proof. intros d [= <-]. discriminate. Defined.

Lemma fit_updates_witness :
  placed toy_configured ∧ toy_data ≠ [] ∧
  (∀ d, Some toy_data = Some d → d ≠ []) ∧ (1 ≤ 2)%Z ∧
  ∃ evs,
    trace (fit toy_data 2 (Some toy_data) [7%nat] 1 toy_configured).2 =
      trace toy_configured ++ evs ∧
    updates_of evs =
    concat (replicate 4 [ev_zero_grad; ev_backward; ev_optimizer_step;
                         ev_schedule_step]).
Proof.
  split; [exact toy_configured_placed|]. split; [discriminate|].
  split; [exact toy_dev_nonempty|]. split; [lia|].
  destruct (fit_updates (B := toy) toy_data 2 (Some toy_data) [7%nat] 1%nat
              toy_configured toy_configured_placed)
    as (evs & H & Hu); [discriminate|exact toy_dev_nonempty|lia|].
  exists evs. split; [exact H|exact Hu].
Defined.

Lemma fit_leaves_mode_witness :
  placed toy_configured ∧ toy_data ≠ [] ∧
  (∀ d, Some toy_data = Some d → d ≠ []) ∧ (1 ≤ 2)%Z ∧
  training (fit toy_data 2 (Some toy_data) [] 0 toy_configured).2 = false ∧
  placed (fit toy_data 2 (Some toy_data) [] 0 toy_configured).2.
Proof.
  split; [exact toy_configured_placed|]. split; [discriminate|].
  split; [exact toy_dev_nonempty|]. split; [lia|].
  destruct (fit_leaves_mode (B := toy) toy_data 2 (Some toy_data) [] 0%nat
              toy_configured toy_configured_placed)
    as (H1 & H2 & _); [discriminate|exact toy_dev_nonempty|lia|].
  split; [exact H1|exact H2].
Defined.

Lemma fit_without_training_batch_witness :
  (1 ≤ 3)%Z ∧
  fit [] 3 (Some toy_data) [7%nat] 1 toy_configured =
  (Raise (UnboundLocalError "logs"), pass_start true toy_configured).
Proof.
  split; [lia|].
  apply (fit_without_training_batch (B := toy) 3 (Some toy_data) [7%nat] 1%nat
           toy_configured). lia.
Defined.

Lemma fit_without_dev_batch_witness :
  placed toy_configured ∧ toy_data ≠ [] ∧ (1 ≤ 3)%Z ∧
  fit toy_data 3 (Some []) [7%nat] 1 toy_configured =
  (Raise (UnboundLocalError "logs"),
   pass_start false (epoch_trained toy_data 0 toy_configured)).
Proof.
  split; [exact toy_configured_placed|]. split; [discriminate|].
  split; [lia|].
  destruct (fit_without_dev_batch (B := toy) toy_data 3 [7%nat] 1%nat
              toy_configured toy_configured_placed) as [H _];
    [discriminate|lia|exact H].
Defined.

Lemma evaluate_loss_of_batches_witness :
  placed toy_configured ∧ toy_data ≠ [] ∧
  ("loss" ∉ dom (metrics toy_configured)) ∧
  ∃ logs logs',
    (evaluate toy_data 1 toy_configured).1 = Ok logs ∧
    (evaluate toy_data 0 toy_configured).1 = Ok logs' ∧
    logs' !! "loss" = logs !! "loss".
Proof.
  split; [exact toy_configured_placed|]. split; [discriminate|].
  split; [exact toy_loss_not_metric|].
  destruct (evaluate_loss_of_batches (B := toy) toy_data
              1%nat 0%nat toy_configured toy_configured
              toy_configured_placed toy_configured_placed eq_refl)
    as (logs & logs' & H1 & H2 & _ & H4);
    [discriminate|exact toy_loss_not_metric|exact toy_loss_not_metric|].
  exists logs, logs'. split; [exact H1|]. split; [exact H2|exact H4].
Defined.

Lemma fit_log_streams_witness :
  (∀ k, k ∈ dom (metrics toy_configured) → startswith "dev_" k = false) ∧
  train_part (epoch_logs toy_data (Some toy_data) 0 toy_configured) =
    train_logs (epoch_trained toy_data 0 toy_configured) ∧
  dev_part (epoch_logs toy_data (Some toy_data) 0 toy_configured) =
    epoch_dev_logs toy_data toy_data 0 toy_configured.
Proof.
  assert (H : ∀ k, k ∈ dom (metrics toy_configured) →
                   startswith "dev_" k = false).
  { intros k Hk. change (metrics toy_configured)
      with ({[ "accuracy" := (0, 0)%Z ]} : gmap string (Z * Z)) in Hk.
    rewrite dom_singleton_L in Hk. apply elem_of_singleton in Hk.
    rewrite Hk. reflexivity. }
  split; [exact H|].
  exact (fit_log_streams (B := toy) toy_data (Some toy_data) 0%nat
           toy_configured H).
Defined.


Lemma checkpoint_restores_contents_witness :
  placed toy_configured ∧ toy_data ≠ [] ∧
  (∀ d, Some toy_data = Some d → d ≠ []) ∧ (1 ≤ 2)%Z ∧
  loadable (cuda_available toy_configured)
    (select_device (cuda_available toy_configured) (explicit cpu)) = true ∧
  plain (select_device (cuda_available toy_configured) (explicit cpu)) ∧
  plain (device toy_configured) ∧
  let s1 := (fit toy_data 2 (Some toy_data) [] 0
               (save_weights "weights.pt" toy_configured).2).2 in
  let s2 := (load_weights "weights.pt" (explicit cpu) s1).2 in
  data <$> params s2 = data <$> params toy_configured ∧
  (predict [3%Z] true s2).1 = (predict [3%Z] true toy_configured).1.
Proof.
  assert (Hcpu : plain cpu) by (by left).
  split; [exact toy_configured_placed|]. split; [discriminate|].
  split; [exact toy_dev_nonempty|]. split; [lia|].
  split; [reflexivity|]. split; [exact Hcpu|]. split; [exact Hcpu|].
  destruct (checkpoint_restores_contents (B := toy) "weights.pt" (explicit cpu)
              toy_data 2 (Some toy_data) [] 0%nat toy_configured
              toy_configured_placed)
    as (_ & H2 & _ & _ & H5);
    [discriminate|exact toy_dev_nonempty|lia|reflexivity|exact Hcpu|exact Hcpu|].
  split; [exact H2|]. apply H5. reflexivity.
Defined.

Lemma save_load_same_witness :
  loadable (cuda_available toy_configured)
    (select_device (cuda_available toy_configured) auto) = true ∧
  plain (select_device (cuda_available toy_configured) auto) ∧
  map_Forall (λ _ p, plain (dev p)) (params toy_configured) ∧
  load_weights "weights.pt" auto (save_weights "weights.pt" toy_configured).2 =
  (Ok tt, set_device cuda (save_weights "weights.pt" toy_configured).2).
Proof.
  assert (Hps : map_Forall (λ _ p, plain (dev p)) (params toy_configured)).
  { intros k p Hk. rewrite (toy_configured_placed k p Hk). by left. }
  destruct (save_load_same (B := toy) "weights.pt" auto toy_configured)
    as (H & _ & Hl & Hd).
  split; [exact Hl|]. split; [exact Hd|]. split; [exact Hps|].
  exact (H Hl Hd Hps).
Defined.


(** C6 as it was stated fails on a machine without CUDA when CUDA is asked
    for by name: [configure] stores the device and raises, and the weight
    is still on the CPU. *)
Definition toy_without_cuda : State :=
  mkState true {[ "w" := {| data := 2%Z; dev := cpu |} ]} None 1%Z None
    MeanMetric_new ∅ None ∅ cpu false true ∅ [].

Lemma configure_cuda_unavailable :
  (configure 1%Z None ∅ None (explicit cuda) toy_without_cuda).1 =
    Raise DeviceUnavailable ∧
  device (configure 1%Z None ∅ None (explicit cuda) toy_without_cuda).2 = cuda ∧
  params (configure 1%Z None ∅ None (explicit cuda) toy_without_cuda).2 =
    {[ "w" := {| data := 2%Z; dev := cpu |} ]} ∧
  ¬ placed (configure 1%Z None ∅ None (explicit cuda) toy_without_cuda).2.
Proof.
  assert (Hm : movable (B := toy) cuda toy_without_cuda = false).
  { unfold movable. apply orb_false_intro; [|reflexivity].
    apply bool_decide_eq_false_2. cbn [params toy_without_cuda].
    rewrite dom_singleton_L. intros H.
    apply (non_empty_singleton_L (C := gset string) "w"). exact H. }
  rewrite configure_state.
  change (select_device (cuda_available toy_without_cuda) (explicit cuda))
    with cuda.
  rewrite Hm. cbn [fst snd device params toy_without_cuda].
  split_and!; try reflexivity.
  intros H. specialize (H "w" {| data := 2%Z; dev := cpu |}).
  assert (cpu = cuda) by (apply H; apply lookup_singleton_eq). discriminate.
Qed.

(** C6 on the same machine with "auto", and with CUDA at hand. *)
Lemma device_selection_witness :
  device (configure 1%Z None ∅ None auto toy_without_cuda).2 = cpu ∧
  (configure 1%Z None ∅ None auto toy_new).1 = Ok tt ∧
  params (configure 1%Z None ∅ None auto toy_new).2 !! "w" =
    Some {| data := 2%Z; dev := cuda |}.
Proof.
  destruct (device_selection (B := toy)) as (_ & _ & _ & Hu & Hc & _).
  destruct (Hc 1%Z None ∅ None auto toy_without_cuda) as (Hd & _).
  destruct (Hc 1%Z None ∅ None auto toy_new) as (Hd' & _ & Hok & _).
  split; [exact Hd|].
  destruct Hok as [Hok Hps]; [rewrite Hd'; apply Hu|].
  split; [exact Hok|].
  rewrite (Hps "w" (@Build_Tensor toy 2%Z cpu) eq_refl), Hd'. reflexivity.
Defined.

(** * The command line *)

Module Args.

(** What an attribute of the parsed namespace can hold: an integer, or the
    placeholder [...] that the script gives as a default. *)
Inductive value := Int (n : Z) | Ellipsis.

Record Namespace := {
  batch_size : value;
  epochs : value;
  seed : value;
  threads : value;
}.

Inductive flag := batch_size_ | epochs_ | seed_ | threads_.

Global Instance flag_eq_dec : EqDecision flag.
Proof. solve_decision. Defined.

Definition option_string (f : flag) : string :=
  match f with
  | batch_size_ => "--batch_size"
  | epochs_ => "--epochs"
  | seed_ => "--seed"
  | threads_ => "--threads"
  end.

Definition get (f : flag) (ns : Namespace) : value :=
  match f with
  | batch_size_ => batch_size ns
  | epochs_ => epochs ns
  | seed_ => seed ns
  | threads_ => threads ns
  end.

Definition set (f : flag) (v : value) (ns : Namespace) : Namespace :=
  match f with
  | batch_size_ => {| batch_size := v; epochs := epochs ns; seed := seed ns;
                      threads := threads ns |}
  | epochs_ => {| batch_size := batch_size ns; epochs := v; seed := seed ns;
                  threads := threads ns |}
  | seed_ => {| batch_size := batch_size ns; epochs := epochs ns; seed := v;
                threads := threads ns |}
  | threads_ => {| batch_size := batch_size ns; epochs := epochs ns;
                   seed := seed ns; threads := v |}
  end.

(** The [default=] of each [add_argument]: argparse converts a default only
    when it is a string, so [...] stays [...]. *)
Definition defaults : Namespace :=
  {| batch_size := Ellipsis; epochs := Ellipsis; seed := Int 42; threads := Int 1 |}.

(** [int(s)] on a decimal numeral with an optional sign (the blanks
    around it and the underscores between digits that Python also accepts
    are left out). *)
Definition digit (c : Ascii.ascii) : option Z :=
  let n := Z.of_nat (Ascii.nat_of_ascii c) in
  if decide (48 ≤ n ≤ 57)%Z then Some (n - 48)%Z else None.

Fixpoint digits (s : string) (acc : Z) : option Z :=
  match s with
  | EmptyString => Some acc
  | String c s' =>
      match digit c with
      | Some d => digits s' (10 * acc + d)%Z
      | None => None
      end
  end.

Definition unsigned (s : string) : option Z :=
  match s with
  | EmptyString => None
  | _ => digits s 0
  end.

Definition int (s : string) : option Z :=
  match s with
  | String c s' =>
      if Ascii.eqb c "-" then Z.opp <$> unsigned s'
      else if Ascii.eqb c "+" then unsigned s'
      else unsigned s
  | EmptyString => None
  end.

(** An argument that argparse takes for an option rather than for a value:
    it starts with a dash and is not a negative number. *)
Definition looks_like_option (s : string) : bool :=
  match s with
  | String c s' =>
      Ascii.eqb c "-" && match unsigned s' with Some _ => false | None => true end
  | EmptyString => false
  end.

(** [--name=value] is split at the first [=]. *)
Fixpoint split_eq (s : string) : string * option string :=
  match s with
  | EmptyString => (EmptyString, None)
  | String c s' =>
      if Ascii.eqb c "=" then (EmptyString, Some s')
      else let '(a, b) := split_eq s' in (String c a, b)
  end.

(** The option an option string stands for: its name, or an abbreviation of
    it (the four names differ in their first letter, so every prefix longer
    than the two dashes is unambiguous). Anything else, [--help] included,
    ends the program. *)
Definition match_flag (opt : string) : option flag :=
  if (2 <? String.length opt)%nat then
    if String.prefix opt (option_string batch_size_) then Some batch_size_
    else if String.prefix opt (option_string epochs_) then Some epochs_
    else if String.prefix opt (option_string seed_) then Some seed_
    else if String.prefix opt (option_string threads_) then Some threads_
    else None
  else None.

(** The arguments are consumed from left to right; [pending] is the option
    that still waits for its value. [None] stands for the exit of the
    program with a usage error (or after the help text). *)
Fixpoint consume (argv : list string) (pending : option flag) (ns : Namespace)
    : option Namespace :=
  match argv, pending with
  | [], None => Some ns
  | [], Some _ => None
  | arg :: rest, Some f =>
      if looks_like_option arg then None
      else match int arg with
           | Some n => consume rest None (set f (Int n) ns)
           | None => None
           end
  | arg :: rest, None =>
      if String.eqb arg "--" then match rest with [] => Some ns | _ => None end
      else
        let '(opt, attached) := split_eq arg in
        match match_flag opt, attached with
        | Some f, Some v =>
            match int v with
            | Some n => consume rest None (set f (Int n) ns)
            | None => None
            end
        | Some f, None => consume rest (Some f) ns
        | None, _ => None
        end
  end.

(** [parser.parse_args(argv)] *)
Definition parse_args (argv : list string) : option Namespace :=
  consume argv None defaults.

Definition is_int (v : value) : Prop :=
  match v with Int _ => True | Ellipsis => False end.

(** The option is given somewhere on the command line. *)
Definition given (f : flag) (argv : list string) : Prop :=
  Exists (λ arg, match_flag (split_eq arg).1 = Some f) argv.

Example parse_example :
  parse_args ["--batch_size"; "32"; "--ep=10"; "--seed"; "-7"] =
  Some {| batch_size := Int 32; epochs := Int 10; seed := Int (-7);
          threads := Int 1 |}.
Proof. reflexivity. Qed.

Example parse_bad_value : parse_args ["--seed"; "x"] = None.
Proof. reflexivity. Qed.


Lemma get_set_eq f v ns : get f (set f v ns) = v.
Proof. by destruct f. Qed.

Lemma get_set_ne f g v ns : f ≠ g → get g (set f v ns) = get g ns.
Proof. by destruct f, g. Qed.

Lemma is_int_set f g n ns : is_int (get g ns) → is_int (get g (set f (Int n) ns)).
Proof.
  destruct (decide (f = g)) as [->|Hne].
  - by rewrite get_set_eq.
  - by rewrite get_set_ne.
Qed.

(** An option string starts with two dashes; a numeral does not. *)
Lemma match_flag_dashes opt f :
  match_flag opt = Some f → ∃ r, opt = String "-" (String "-" r).
Proof.
  unfold match_flag. destruct opt as [|c1 [|c2 r]]; try discriminate.
  intros H. exists r.
  assert (c1 = "-"%char ∧ c2 = "-"%char) as [-> ->]; [|done].
  destruct (2 <? _)%nat; [|discriminate]. simpl in H.
  repeat match type of H with
         | context [ascii_dec ?a ?b] => destruct (ascii_dec a b); subst
         end; try discriminate; done.
Qed.

Lemma split_eq_dashes arg r :
  (split_eq arg).1 = String "-" (String "-" r) →
  ∃ r', arg = String "-" (String "-" r').
Proof.
  destruct arg as [|c1 [|c2 r']]; simpl; try discriminate.
  - destruct (Ascii.eqb c1 "="); discriminate.
  - destruct (Ascii.eqb c1 "=") eqn:E1; [discriminate|].
    destruct (Ascii.eqb c2 "=") eqn:E2; [discriminate|].
    destruct (split_eq r') as [a b]. simpl. intros [= -> -> _]. eauto.
Qed.

Lemma int_not_flag arg n : int arg = Some n → match_flag (split_eq arg).1 = None.
Proof.
  intros Hi. destruct (match_flag (split_eq arg).1) as [f|] eqn:E; [|done].
  apply match_flag_dashes in E as [r E].
  apply split_eq_dashes in E as [r' ->]. discriminate.
Qed.

Lemma given_cons f arg rest :
  given f (arg :: rest) ↔ match_flag (split_eq arg).1 = Some f ∨ given f rest.
Proof. unfold given. apply Exists_cons. Qed.

Lemma consume_values argv pending ns ns' f :
  consume argv pending ns = Some ns' →
  (is_int (get f ns) → is_int (get f ns')) ∧
  (given f argv ∨ pending = Some f → is_int (get f ns')) ∧
  (¬ given f argv → pending ≠ Some f → get f ns' = get f ns).
Proof.
  revert pending ns. induction argv as [|arg rest IH]; intros pending ns H.
  - destruct pending; [discriminate|]. injection H as <-.
    split; [done|]. split; [|done].
    intros [Hg|?]; [|discriminate]. by apply Exists_nil in Hg.
  - destruct pending as [f0|]; simpl in H.
    + destruct (looks_like_option arg); [discriminate|].
      destruct (int arg) as [n|] eqn:Hi; [|discriminate].
      destruct (IH _ _ H) as (IH1 & IH2 & IH3).
      pose proof (int_not_flag arg n Hi) as Hnf.
      split_and!.
      * intros Hint. by apply IH1, is_int_set.
      * intros [Hg|[= ->]].
        -- apply given_cons in Hg as [Hg|Hg]; [congruence|]. apply IH2. by left.
        -- apply IH1. by rewrite get_set_eq.
      * intros Hng Hne. rewrite IH3.
        -- apply get_set_ne. congruence.
        -- intros Hg. apply Hng, given_cons. by right.
        -- discriminate.
    + destruct (String.eqb arg "--") eqn:Hdd.
      { apply String.eqb_eq in Hdd as ->. destruct rest; [|discriminate].
        injection H as <-. split; [done|]. split; [|done].
        intros [Hg|?]; [|discriminate].
        apply given_cons in Hg as [Hg|Hg]; [discriminate|].
        by apply Exists_nil in Hg. }
      destruct (split_eq arg) as [opt attached] eqn:Hs.
      assert (Hopt : (split_eq arg).1 = opt) by by rewrite Hs.
      destruct (match_flag opt) as [f0|] eqn:Hm; [|discriminate].
      destruct attached as [v|].
      * destruct (int v) as [n|]; [|discriminate].
        destruct (IH _ _ H) as (IH1 & IH2 & IH3). split_and!.
        -- intros Hint. by apply IH1, is_int_set.
        -- intros [Hg|?]; [|discriminate].
           apply given_cons in Hg as [Hg|Hg].
           ++ rewrite Hopt, Hm in Hg. injection Hg as ->.
              apply IH1. by rewrite get_set_eq.
           ++ apply IH2. by left.
        -- intros Hng _. rewrite IH3.
           ++ apply get_set_ne. intros ->. apply Hng, given_cons. left.
              by rewrite Hopt.
           ++ intros Hg. apply Hng, given_cons. by right.
           ++ discriminate.
      * destruct (IH _ _ H) as (IH1 & IH2 & IH3). split_and!.
        -- exact IH1.
        -- intros [Hg|?]; [|discriminate].
           apply given_cons in Hg as [Hg|Hg].
           ++ rewrite Hopt, Hm in Hg. injection Hg as ->. apply IH2. by right.
           ++ apply IH2. by left.
        -- intros Hng _. apply IH3.
           ++ intros Hg. apply Hng, given_cons. by right.
           ++ intros [= ->]. apply Hng, given_cons. left. by rewrite Hopt.
Qed.

(** C7 (as amended). Whenever the command line parses, [--seed] and
    [--threads] are integers, with the defaults 42 and 1. [--batch_size]
    and [--epochs] are integers when they are given; left out, each is the
    placeholder [...] of the script, which is not an integer. *)
Theorem parse_args_values argv ns :
  parse_args argv = Some ns →
  is_int (seed ns) ∧ is_int (threads ns) ∧
  (¬ given seed_ argv → seed ns = Int 42) ∧
  (¬ given threads_ argv → threads ns = Int 1) ∧
  (given batch_size_ argv → is_int (batch_size ns)) ∧
  (given epochs_ argv → is_int (epochs ns)) ∧
  (¬ given batch_size_ argv → batch_size ns = Ellipsis) ∧
  (¬ given epochs_ argv → epochs ns = Ellipsis).
Proof.
  intros H. unfold parse_args in H.
  destruct (consume_values argv None defaults ns seed_ H) as (S1 & _ & S3).
  destruct (consume_values argv None defaults ns threads_ H) as (T1 & _ & T3).
  destruct (consume_values argv None defaults ns batch_size_ H) as (_ & B2 & B3).
  destruct (consume_values argv None defaults ns epochs_ H) as (_ & E2 & E3).
  simpl in *. split_and!; auto.
Qed.

Lemma parse_args_values_witness :
  parse_args ["--batch_size"; "32"; "--ep=10"; "--seed"; "-7"] =
    Some {| batch_size := Int 32; epochs := Int 10; seed := Int (-7);
            threads := Int 1 |} ∧
  is_int (Int 32) ∧ is_int (Int 10) ∧ is_int (Int (-7)) ∧ is_int (Int 1).
Proof.
  pose proof (parse_args_values
                ["--batch_size"; "32"; "--ep=10"; "--seed"; "-7"] _ eq_refl)
    as (Hs & Ht & _ & _ & Hb & He & _).
  split; [reflexivity|]. split_and!.
  - apply Hb. apply Exists_cons_hd. reflexivity.
  - apply He. do 2 apply Exists_cons_tl. apply Exists_cons_hd. reflexivity.
  - exact Hs.
  - exact Ht.
Defined.

(** C7 as it was stated fails on the empty command line: two of the four
    values are no integers. *)
Lemma parse_args_no_arguments :
  parse_args [] = Some defaults ∧
  batch_size defaults = Ellipsis ∧ epochs defaults = Ellipsis ∧
  ¬ is_int (batch_size defaults) ∧ ¬ is_int (epochs defaults).
Proof. repeat split; intros []. Qed.

End Args.

(** * The predictions written by main *)

Module Main.
Section Predictions.

(** [morpho.train.tags.word_vocab.string]: the tag of an index. *)
Variable tag_string : nat → string.

(** A numpy array with two axes: here, one row per tag and one column per
    position of the sentence. *)
Record Array2 := { shape0 : nat; shape1 : nat; item : nat → nat → Qc }.

(** [a[:, :n]] *)
Definition slice_columns (n : nat) (a : Array2) : Array2 :=
  {| shape0 := shape0 a; shape1 := Nat.min n (shape1 a); item := item a |}.

(** [np.argmax] of the [n] values [f 0 .. f (n - 1)]: the first index of
    the largest one. *)
Definition argmax1 (f : nat → Qc) (n : nat) : nat :=
  foldl (λ best i, if decide (f best < f i)%Qc then i else best) 0%nat
    (seq 1 (n - 1)).

(** [np.argmax(a, axis=0)]: per column, the row of the largest value; a
    [ValueError] ([None]) when there is no row. *)
Definition argmax_axis0 (a : Array2) : option (list nat) :=
  if decide (shape0 a = 0%nat) then None
  else Some ((λ j, argmax1 (λ i, item a i j) (shape0 a)) <$> seq 0 (shape1 a)).

(** The file opened for writing, and [print(line, file=f)]. *)
Definition newline : string := String "010" "".
Record TextFile := { encoding : string; text : string }.

Definition print (line : string) (f : TextFile) : TextFile :=
  {| encoding := encoding f; text := text f +:+ line +:+ newline |}.

(** The loop over [zip(predictions, morpho.test.forms.strings)]; the flag
    tells whether it ran to its end. What was printed stays in the file. *)
Fixpoint write_sentences (pairs : list (Array2 * list string)) (f : TextFile)
    : bool * TextFile :=
  match pairs with
  | [] => (true, f)
  | (predicted_tags, forms) :: rest =>
      match argmax_axis0 (slice_columns (length forms) predicted_tags) with
      | None => (false, f)
      | Some tags =>
          write_sentences rest
            (print "" (foldl (λ f tag, print (tag_string tag) f) f tags))
      end
  end.

Definition write_predictions (predictions : list Array2)
    (sentences : list (list string)) : bool * TextFile :=
  write_sentences (zip predictions sentences)
    {| encoding := "utf-8"; text := "" |}.

(** Lines, each closed by a newline. *)
Definition unlines (lines : list string) : string :=
  foldr (λ line rest, line +:+ newline +:+ rest) "" lines.

(** The tag printed for position [j]. *)
Definition best_tag (a : Array2) (j : nat) : nat :=
  argmax1 (λ i, item a i j) (shape0 a).

(** The lines of one sentence: a tag per position, then an empty line. *)
Definition sentence_lines (a : Array2) (forms : list string) : list string :=
  ((λ j, tag_string (best_tag a j)) <$> seq 0 (length forms)) ++ [""].

Lemma append_assoc (a b c : string) : (a +:+ b) +:+ c = a +:+ b +:+ c.
Proof.
  induction a as [|x a IH]; [done|].
  change (String x ((a +:+ b) +:+ c) = String x (a +:+ b +:+ c)).
  by rewrite IH.
Qed.

Lemma append_empty_r (a : string) : a +:+ "" = a.
Proof.
  induction a as [|x a IH]; [done|].
  change (String x (a +:+ "") = String x a). by rewrite IH.
Qed.

Lemma unlines_cons l ls : unlines (l :: ls) = l +:+ newline +:+ unlines ls.
Proof. reflexivity. Qed.

Lemma unlines_app l1 l2 : unlines (l1 ++ l2) = unlines l1 +:+ unlines l2.
Proof.
  induction l1 as [|l l1 IH]; [done|].
  rewrite <- app_comm_cons, !unlines_cons, IH. by rewrite !append_assoc.
Qed.

Lemma print_tags tags f :
  foldl (λ f tag, print (tag_string tag) f) f tags =
  {| encoding := encoding f;
     text := text f +:+ unlines (tag_string <$> tags) |}.
Proof.
  revert f. induction tags as [|t tags IH]; intros f.
  - simpl. rewrite append_empty_r. by destruct f.
  - rewrite fmap_cons, unlines_cons. cbn [foldl]. rewrite IH.
    unfold print. cbn [encoding text]. by rewrite !append_assoc.
Qed.

(** The first index of the maximum, as numpy defines it. *)
Lemma argmax1_spec f n :
  (0 < n)%nat →
  (argmax1 f n < n)%nat ∧
  (∀ i, (i < n)%nat → (f i ≤ f (argmax1 f n))%Qc) ∧
  (∀ i, (i < argmax1 f n)%nat → (f i < f (argmax1 f n))%Qc).
Proof.
  intros Hn. destruct n as [|m]; [lia|]. clear Hn. unfold argmax1.
  rewrite Nat.sub_succ, Nat.sub_0_r.
  induction m as [|m IH].
  - simpl. split; [lia|]. split.
    + intros i Hi. replace i with 0%nat by lia. reflexivity.
    + intros i Hi. lia.
  - rewrite seq_S, foldl_app. simpl.
    set (b := foldl _ 0%nat (seq 1 m)) in *.
    destruct IH as (Hb & Hmax & Hfirst).
    destruct (decide (f b < f (S m))%Qc) as [Hlt|Hge].
    + split; [lia|]. split.
      * intros i Hi. destruct (decide (i = S m)) as [->|Hne]; [reflexivity|].
        apply Qclt_le_weak. eapply Qcle_lt_trans; [apply Hmax; lia|exact Hlt].
      * intros i Hi. eapply Qcle_lt_trans; [apply Hmax; lia|exact Hlt].
    + split; [lia|]. split.
      * intros i Hi. destruct (decide (i = S m)) as [->|Hne].
        -- by apply Qcnot_lt_le.
        -- apply Hmax. lia.
      * exact Hfirst.
Qed.

Lemma write_sentences_lines pairs f :
  Forall (λ pf, (0 < shape0 pf.1)%nat ∧ (length pf.2 ≤ shape1 pf.1)%nat) pairs →
  write_sentences pairs f =
  (true,
   {| encoding := encoding f;
      text := text f +:+
              unlines (flat_map (λ pf, sentence_lines pf.1 pf.2) pairs) |}).
Proof.
  revert f. induction pairs as [|[a forms] pairs IH]; intros f Hall.
  - simpl. rewrite append_empty_r. by destruct f.
  - apply Forall_cons in Hall as [[Hrows Hcols] Hall]. simpl in *.
    unfold argmax_axis0. simpl. rewrite decide_False by lia.
    rewrite IH by done. rewrite print_tags. unfold print. cbn [encoding text].
    rewrite Nat.min_l by lia. f_equal. f_equal.
    cbn [flat_map fst snd]. unfold sentence_lines.
    rewrite <- app_assoc, !unlines_app, unlines_cons, <- list_fmap_compose.
    rewrite !append_assoc. reflexivity.
Qed.

(** C8. When every prediction paired with a sentence scores at least one
    tag and has a column for each form of the sentence (predictions are
    padded, never cut), the loop of [main] runs to its end and the file,
    opened as UTF-8 text, holds for each pair in order: one line per form,
    with the tag whose score is largest at that position (the first such
    tag), and then one empty line. *)
Theorem write_predictions_lines predictions sentences :
  Forall (λ pf, (0 < shape0 pf.1)%nat ∧ (length pf.2 ≤ shape1 pf.1)%nat)
    (zip predictions sentences) →
  write_predictions predictions sentences =
    (true,
     {| encoding := "utf-8";
        text := unlines (flat_map (λ pf, sentence_lines pf.1 pf.2)
                           (zip predictions sentences)) |}) ∧
  ∀ a forms, (a, forms) ∈ zip predictions sentences →
    length (sentence_lines a forms) = S (length forms) ∧
    last (sentence_lines a forms) = Some "" ∧
    ∀ j, (j < length forms)%nat →
      sentence_lines a forms !! j = Some (tag_string (best_tag a j)) ∧
      (best_tag a j < shape0 a)%nat ∧
      (∀ i, (i < shape0 a)%nat → (item a i j ≤ item a (best_tag a j) j)%Qc) ∧
      (∀ i, (i < best_tag a j)%nat →
         (item a i j < item a (best_tag a j) j)%Qc).
Proof.
  intros Hall. split.
  - unfold write_predictions. by rewrite write_sentences_lines.
  - intros a forms Hin.
    rewrite Forall_forall in Hall. destruct (Hall _ Hin) as [Hrows _].
    simpl in Hrows. unfold sentence_lines. split_and!.
    + rewrite length_app, length_fmap, length_seq. simpl. lia.
    + by rewrite last_snoc.
    + intros j Hj. split.
      * rewrite lookup_app_l by (rewrite length_fmap, length_seq; lia).
        rewrite list_lookup_fmap, lookup_seq_lt by lia. reflexivity.
      * apply (argmax1_spec (λ i, item a i j) (shape0 a)). exact Hrows.
Qed.

(** ** The loop of main on any predictions *)

(** What the loop prints for one pair: a tag for every position that the
    prediction and the sentence share, then the empty line. *)
Definition printed_lines (a : Array2) (forms : list string) : list string :=
  ((λ j, tag_string (best_tag a j))
     <$> seq 0 (Nat.min (length forms) (shape1 a))) ++ [""].

(** The pairs the loop gets through: those before the first prediction
    without a row, on which [np.argmax] raises. *)
Fixpoint before_failure (pairs : list (Array2 * list string))
    : list (Array2 * list string) :=
  match pairs with
  | [] => []
  | pf :: rest =>
      if decide (shape0 pf.1 = 0%nat) then [] else pf :: before_failure rest
  end.

Lemma write_sentences_any pairs f :
  write_sentences pairs f =
  (bool_decide (Forall (λ pf, shape0 pf.1 ≠ 0%nat) pairs),
   {| encoding := encoding f;
      text := text f +:+
              unlines (flat_map (λ pf, printed_lines pf.1 pf.2)
                         (before_failure pairs)) |}).
Proof.
  revert f. induction pairs as [|[a forms] pairs IH]; intros f.
  - simpl. rewrite append_empty_r. by destruct f.
  - cbn [write_sentences before_failure fst]. unfold argmax_axis0.
    cbn [slice_columns shape0 shape1 item].
    destruct (decide (shape0 a = 0%nat)) as [Hz|Hz].
    + rewrite bool_decide_eq_false_2
        by (intros H; by apply Forall_cons in H as [H _]).
      cbn [flat_map unlines foldr]. rewrite append_empty_r. by destruct f.
    + rewrite IH, print_tags. unfold print. cbn [encoding text].
      f_equal.
      * apply bool_decide_ext. rewrite Forall_cons. cbn [fst]. tauto.
      * f_equal. cbn [flat_map fst snd]. unfold printed_lines.
        rewrite <- app_assoc, !unlines_app, unlines_cons, <- list_fmap_compose.
        rewrite !append_assoc. reflexivity.
Qed.

Lemma before_failure_prefix pairs : before_failure pairs `prefix_of` pairs.
Proof.
  induction pairs as [|pf pairs IH]; [done|]. simpl.
  destruct (decide _); [apply prefix_nil|by apply prefix_cons].
Qed.

(** X16. Whatever the predictions, the file holds the lines of the pairs that
    precede the first prediction without a tag row, complete and in order:
    for each a tag per position that both the sentence and the prediction
    have (a prediction with fewer columns than the sentence has forms gives
    fewer lines), then the empty line. The loop runs to its end exactly when
    no paired prediction is without a row, and then every pair is written;
    predictions or sentences beyond the shorter of the two lists are not
    looked at. *)
Theorem write_predictions_any predictions sentences :
  let pairs := zip predictions sentences in
  write_predictions predictions sentences =
    (bool_decide (Forall (λ pf, shape0 pf.1 ≠ 0%nat) pairs),
     {| encoding := "utf-8";
        text := unlines (flat_map (λ pf, printed_lines pf.1 pf.2)
                           (before_failure pairs)) |}) ∧
  before_failure pairs `prefix_of` pairs ∧
  (before_failure pairs = pairs ↔ Forall (λ pf, shape0 pf.1 ≠ 0%nat) pairs) ∧
  length pairs = Nat.min (length predictions) (length sentences) ∧
  ∀ a forms,
    length (printed_lines a forms) = S (Nat.min (length forms) (shape1 a)).
Proof.
  cbv zeta. split_and!.
  - unfold write_predictions. by rewrite write_sentences_any.
  - apply before_failure_prefix.
  - induction (zip predictions sentences) as [|pf pairs IH]; [done|].
    simpl. destruct (decide (shape0 pf.1 = 0%nat)) as [Hz|Hz].
    + split; [done|]. intros H. apply Forall_cons in H as [H _]. done.
    + rewrite Forall_cons, <- IH. split.
      * by intros [= ->].
      * by intros [_ ->].
  - apply length_zip.
  - intros a forms. unfold printed_lines.
    rewrite length_app, length_fmap, length_seq. simpl. lia.
Qed.

(** ** Padding *)

Lemma argmax1_bound f n : (0 < n)%nat → (argmax1 f n < n)%nat.
Proof. intros Hn. by apply argmax1_spec. Qed.

Lemma argmax1_ext f g n :
  (∀ i, (i < n)%nat → f i = g i) → argmax1 f n = argmax1 g n.
Proof.
  intros Hfg. destruct n as [|m]; [done|]. unfold argmax1.
  rewrite Nat.sub_succ, Nat.sub_0_r.
  assert (H : ∀ k, (k ≤ m)%nat →
            foldl (λ best i, if decide (f best < f i)%Qc then i else best)
              0%nat (seq 1 k) =
            foldl (λ best i, if decide (g best < g i)%Qc then i else best)
              0%nat (seq 1 k) ∧
            (foldl (λ best i, if decide (g best < g i)%Qc then i else best)
               0%nat (seq 1 k) ≤ k)%nat).
  { induction k as [|k IH]; intros Hk; [done|].
    rewrite seq_S, !foldl_app. simpl.
    destruct IH as [-> Hb]; [lia|].
    set (b := foldl _ 0%nat (seq 1 k)) in *.
    rewrite (Hfg b), (Hfg (S k)) by lia.
    destruct (decide _); split; (done || lia). }
  by apply H.
Qed.

(** X17. The scores in the columns beyond the forms of the sentence, the padding,
    have no influence on what is written: two lists of predictions with the
    same numbers of rows and of columns that agree on the positions of the
    sentences give the same file. *)
Theorem padding_is_ignored predictions predictions' sentences :
  Forall2 (λ (a a' : Array2) , shape0 a' = shape0 a ∧ shape1 a' = shape1 a)
    predictions predictions' →
  (∀ n a a' forms i j,
     predictions !! n = Some a → predictions' !! n = Some a' →
     sentences !! n = Some forms →
     (i < shape0 a)%nat → (j < length forms)%nat →
     item a' i j = item a i j) →
  write_predictions predictions' sentences =
  write_predictions predictions sentences.
Proof.
  unfold write_predictions.
  generalize {| encoding := "utf-8"; text := "" |}.
  intros f H. revert f sentences.
  induction H as [|a a' ps ps' [Hr Hc] _ IH]; intros f sentences Hitems;
    [done|].
  destruct sentences as [|forms sentences]; [done|].
  cbn [zip zip_with write_sentences]. unfold argmax_axis0.
  cbn [slice_columns shape0 shape1 item]. rewrite Hr, Hc.
  destruct (decide (shape0 a = 0%nat)) as [Hz|Hz]; [done|].
  replace ((λ j, argmax1 (λ i, item a' i j) (shape0 a))
             <$> seq 0 (Nat.min (length forms) (shape1 a)))
    with ((λ j, argmax1 (λ i, item a i j) (shape0 a))
             <$> seq 0 (Nat.min (length forms) (shape1 a))).
  - apply IH. intros n b b' fs i j Hb Hb' Hfs.
    by apply (Hitems (S n)).
  - apply list_fmap_ext. intros k j Hj. apply argmax1_ext. intros i Hi.
    apply lookup_seq in Hj as [-> Hj]. symmetry.
    apply (Hitems 0%nat a a' forms); (done || lia).
Qed.

End Predictions.

(** Two tags over a sentence of two forms, padded to three columns. *)
Definition toy_scores : Array2 :=
  {| shape0 := 2; shape1 := 3;
     item := λ i j, if decide (i = j) then 1 else 0 |}.
Definition toy_tag (i : nat) : string :=
  match i with O => "NOUN" | _ => "VERB" end.

Lemma write_predictions_lines_witness :
  Forall (λ pf : Array2 * list string,
            (0 < shape0 pf.1)%nat ∧ (length pf.2 ≤ shape1 pf.1)%nat)
    (zip [toy_scores] [["Pes"; "spí"]]) ∧
  write_predictions toy_tag [toy_scores] [["Pes"; "spí"]] =
    (true, {| encoding := "utf-8";
              text := "NOUN" +:+ newline +:+ "VERB" +:+ newline +:+ newline |}).
Proof.
  assert (H : Forall (λ pf : Array2 * list string,
                        (0 < shape0 pf.1)%nat ∧ (length pf.2 ≤ shape1 pf.1)%nat)
                (zip [toy_scores] [["Pes"; "spí"]])).
  { repeat constructor; simpl; lia. }
  split; [exact H|].
  destruct (write_predictions_lines toy_tag [toy_scores] [["Pes"; "spí"]] H)
    as [-> _].
  vm_compute. reflexivity.
Defined.


(** Two predictions that differ in the padding column only. *)
Definition toy_scores_padded : Array2 :=
  {| shape0 := 2; shape1 := 3;
     item := λ i j, if decide (i = j) then 1
                    else if decide (j = 2%nat) then Qc_of_Z 5 else 0 |}.

Lemma padding_is_ignored_witness :
  Forall2 (λ a a' : Array2, shape0 a' = shape0 a ∧ shape1 a' = shape1 a)
    [toy_scores] [toy_scores_padded] ∧
  write_predictions toy_tag [toy_scores_padded] [["Pes"; "spí"]] =
  write_predictions toy_tag [toy_scores] [["Pes"; "spí"]].
Proof.
  assert (H : Forall2 (λ a a' : Array2,
                shape0 a' = shape0 a ∧ shape1 a' = shape1 a)
                [toy_scores] [toy_scores_padded])
    by (repeat constructor).
  split; [exact H|].
  apply (padding_is_ignored toy_tag [toy_scores] [toy_scores_padded]
           [["Pes"; "spí"]] H).
  intros n a a' forms i j Ha Ha' Hf Hi Hj.
  destruct n as [|n]; [|discriminate].
  injection Ha as <-. injection Ha' as <-. injection Hf as <-.
  simpl in Hi, Hj. simpl.
  destruct (decide (i = j)); [reflexivity|].
  destruct (decide (j = 2%nat)) as [->|]; [exfalso; clear -Hj; lia|reflexivity].
Defined.


(** * The name of the log directory

    [main] derives the directory of a run from the name of the script, the
    time and the options. The strings here are made of one-byte characters,
    as option names are. *)

(** [re.sub("(.)[^_]*_?", r"\1", k)]. A match starts at any character but a
    newline, which [.] does not match and which is copied; it then takes
    every character up to the next underscore, and that underscore when
    there is one; what replaces it is its first character. [inside] tells
    whether a match is under way. *)
Fixpoint sub_initials (inside : bool) (k : string) : string :=
  match k with
  | "" => ""
  | String c rest =>
      if inside then
        if Ascii.eqb c "_" then sub_initials false rest
        else sub_initials true rest
      else
        if Ascii.eqb c "010" then String c (sub_initials false rest)
        else String c (sub_initials true rest)
  end.
Definition abbreviate (k : string) : string := sub_initials false k.

(** [str(v)] *)
Definition str (v : Args.value) : string :=
  match v with
  | Args.Int n => pretty n
  | Args.Ellipsis => "Ellipsis"
  end.

(** [vars(args).items()], in the order in which the parser has set the
    attributes; [args.logdir] is not set yet when the name is built. *)
Definition vars (args : Args.Namespace) : list (string * Args.value) :=
  [("batch_size", Args.batch_size args); ("epochs", Args.epochs args);
   ("seed", Args.seed args); ("threads", Args.threads args)].

(** [sorted] on pairs whose first components differ: the order of the
    keys, the values are never compared. *)
Fixpoint insert_sorted (kv : string * Args.value)
    (l : list (string * Args.value)) : list (string * Args.value) :=
  match l with
  | [] => [kv]
  | x :: rest =>
      if String.leb kv.1 x.1 then kv :: l else x :: insert_sorted kv rest
  end.
Definition sorted (l : list (string * Args.value)) : list (string * Args.value) :=
  foldr insert_sorted [] l.

(** [os.path.basename] *)
Fixpoint has_char (c : Ascii.ascii) (s : string) : bool :=
  match s with
  | "" => false
  | String x rest => Ascii.eqb x c || has_char c rest
  end.
Fixpoint basename (p : string) : string :=
  match p with
  | "" => ""
  | String _ rest => if has_char "/" p then basename rest else p
  end.

(** The value given to [args.logdir]; [file] is [__file__] when the script
    runs as a file, [now] the time as [strftime] prints it. *)
Definition logdir_name (file : option string) (now : string)
    (args : Args.Namespace) : string :=
  path_join "logs"
    (basename (default "notebook" file) +:+ "-" +:+ now +:+ "-" +:+
     String.concat ","
       ((λ kv, abbreviate kv.1 +:+ "=" +:+ str kv.2) <$> sorted (vars args))).

(** ** Abbreviations *)

Definition word_string (w : Ascii.ascii * string) : string := String w.1 w.2.
Definition initials (ws : list (Ascii.ascii * string)) : string :=
  foldr (λ w s, String w.1 s) "" ws.

Lemma append_cons c (s r : string) : String c s +:+ r = String c (s +:+ r).
Proof. reflexivity. Qed.

Lemma sub_initials_word r rest :
  has_char "_" r = false →
  sub_initials true (r +:+ String "_" rest) = sub_initials false rest.
Proof.
  induction r as [|c r IH]; intros H; [done|].
  rewrite append_cons. cbn [has_char] in H. apply orb_false_elim in H as [Hc Hr].
  cbn [sub_initials]. rewrite Hc. by apply IH.
Qed.

Lemma sub_initials_last r : has_char "_" r = false → sub_initials true r = "".
Proof.
  induction r as [|c r IH]; intros H; [done|].
  cbn [has_char] in H. apply orb_false_elim in H as [Hc Hr].
  cbn [sub_initials]. rewrite Hc. by apply IH.
Qed.

(** X18. A name made of words joined by underscores is abbreviated to the first
    characters of its words: [batch_size] to [bs], [epochs] to [e]. *)
Theorem abbreviate_initials (ws : list (Ascii.ascii * string)) :
  Forall (λ w, w.1 ≠ "010"%char ∧ has_char "_" w.2 = false) ws →
  abbreviate (String.concat "_" (word_string <$> ws)) = initials ws.
Proof.
  unfold abbreviate. induction 1 as [|[c r] ws [Hc Hr] Hws IH]; [done|].
  cbn [fst snd] in Hc, Hr.
  assert (Hnl : Ascii.eqb c "010" = false) by by apply Ascii.eqb_neq.
  destruct ws as [|w ws].
  - cbn [fmap list_fmap String.concat word_string fst snd initials foldr
         sub_initials].
    rewrite Hnl. by rewrite sub_initials_last.
  - rewrite fmap_cons.
    change (String.concat "_" (word_string (c, r) :: (word_string <$> (w :: ws))))
      with (String c (r +:+ String "_"
              (String.concat "_" (word_string <$> (w :: ws))))).
    cbn [sub_initials]. rewrite Hnl, sub_initials_word by done.
    rewrite IH. reflexivity.
Qed.

(** ** The directory of a run *)

Lemma sorted_vars args : sorted (vars args) = vars args.
Proof. reflexivity. Qed.

Lemma basename_no_slash p : has_char "/" (basename p) = false.
Proof.
  induction p as [|c p IH]; [done|].
  cbn [basename]. destruct (has_char "/" (String c p)) eqn:E; [exact IH|exact E].
Qed.

Lemma path_join_logs s r :
  has_char "/" s = false →
  path_join "logs" (s +:+ "-" +:+ r) = "logs/" +:+ s +:+ "-" +:+ r.
Proof.
  intros H. change ("-" +:+ r) with (String "-" r). unfold path_join.
  assert (startswith "/" (s +:+ String "-" r) = false) as ->; [|reflexivity].
  destruct s as [|c s]; [reflexivity|].
  cbn [has_char] in H. apply orb_false_elim in H as [Hc _].
  apply Ascii.eqb_neq in Hc. rewrite append_cons. unfold startswith.
  cbn [String.prefix]. destruct (Ascii.ascii_dec "/" c) as [E|]; [congruence|done].
Qed.

Lemma logdir_name_eq file now args :
  logdir_name file now args =
  "logs/" +:+ basename (default "notebook" file) +:+ "-" +:+ now +:+
  "-bs=" +:+ str (Args.batch_size args) +:+
  ",e=" +:+ str (Args.epochs args) +:+
  ",s=" +:+ str (Args.seed args) +:+
  ",t=" +:+ str (Args.threads args).
Proof.
  unfold logdir_name. rewrite sorted_vars.
  rewrite path_join_logs by apply basename_no_slash.
  reflexivity.
Qed.

Lemma append_inv_head (s x y : string) : s +:+ x = s +:+ y → x = y.
Proof.
  induction s as [|c s IH]; [done|]. rewrite !append_cons. intros [= H]. auto.
Qed.

Lemma append_split c (a a' r r' : string) :
  has_char c a = false → has_char c a' = false →
  a +:+ String c r = a' +:+ String c r' → a = a' ∧ r = r'.
Proof.
  revert a'. induction a as [|x a IH]; intros [|x' a'] Ha Ha'.
  - by intros [= ->].
  - rewrite append_cons. intros [= <- _]. cbn [has_char] in Ha'.
    by rewrite Ascii.eqb_refl in Ha'.
  - rewrite append_cons. intros [= -> _]. cbn [has_char] in Ha.
    by rewrite Ascii.eqb_refl in Ha.
  - rewrite !append_cons. intros [= -> H].
    cbn [has_char] in Ha, Ha'.
    apply orb_false_elim in Ha as [_ Ha]. apply orb_false_elim in Ha' as [_ Ha'].
    destruct (IH a' Ha Ha' H) as [-> ->]. done.
Qed.

Lemma has_char_pretty_N_go c (x : N) s :
  (∀ d, pretty_N_char d ≠ c) → has_char c s = false →
  has_char c (pretty_N_go x s) = false.
Proof.
  intros Hc. revert s. induction (N.lt_wf_0 x) as [x _ IH]; intros s Hs.
  assert (x = 0 ∨ 0 < x)%N as [->|Hx] by lia.
  - by rewrite pretty_N_go_0.
  - rewrite pretty_N_go_step by done. apply IH.
    + by apply N.div_lt.
    + cbn [has_char]. rewrite Hs, orb_false_r. apply Ascii.eqb_neq, Hc.
Qed.

Lemma has_char_str c v :
  (∀ d, pretty_N_char d ≠ c) → c ≠ "-"%char → has_char c "Ellipsis" = false →
  has_char c (str v) = false.
Proof.
  intros Hc Hd He. destruct v as [[|p|p]|]; [| | |exact He].
  - cbn [str]. change (pretty 0%Z) with "0". cbn [has_char].
    rewrite orb_false_r. apply Ascii.eqb_neq, (Hc 0%N).
  - cbn [str]. change (pretty (Z.pos p)) with (pretty_N_go (N.pos p) "").
    by apply has_char_pretty_N_go.
  - cbn [str].
    change (pretty (Z.neg p)) with (String "-" (pretty_N_go (N.pos p) "")).
    cbn [has_char]. rewrite has_char_pretty_N_go, orb_false_r by done.
    apply Ascii.eqb_neq. congruence.
Qed.

Lemma pretty_N_char_not c :
  c = ","%char ∨ c = "E"%char → ∀ d, pretty_N_char d ≠ c.
Proof.
  intros [-> | ->] d; unfold pretty_N_char; by repeat case_match.
Qed.

Lemma str_no_comma v : has_char "," (str v) = false.
Proof.
  apply has_char_str; [apply pretty_N_char_not; by left|done|reflexivity].
Qed.

Lemma str_inj v v' : str v = str v' → v = v'.
Proof.
  assert (HE : ∀ n, str (Args.Int n) ≠ "Ellipsis").
  { intros n H.
    assert (has_char "E" (str (Args.Int n)) = false) as Hn.
    { destruct n as [|p|p].
      - reflexivity.
      - change (str (Args.Int (Z.pos p))) with (pretty_N_go (N.pos p) "").
        apply has_char_pretty_N_go; [apply pretty_N_char_not; by right|done].
      - change (str (Args.Int (Z.neg p)))
          with (String "-" (pretty_N_go (N.pos p) "")).
        cbn [has_char]. rewrite has_char_pretty_N_go;
          [done|apply pretty_N_char_not; by right|done]. }
    rewrite H in Hn. discriminate. }
  destruct v as [n|], v' as [n'|]; intros H.
  - f_equal. by apply (inj pretty).
  - by apply HE in H.
  - symmetry in H. by apply HE in H.
  - done.
Qed.

(** X19. The directory is [logs/<script>-<time>-bs=..,e=..,s=..,t=..]: the
    options in the alphabetical order of their full names, each under the
    initials of its name, whatever the order on the command line; the name
    of the script is taken without its directories. *)
Theorem logdir_name_shape file now args :
  logdir_name file now args =
    "logs/" +:+ basename (default "notebook" file) +:+ "-" +:+ now +:+
    "-bs=" +:+ str (Args.batch_size args) +:+
    ",e=" +:+ str (Args.epochs args) +:+
    ",s=" +:+ str (Args.seed args) +:+
    ",t=" +:+ str (Args.threads args) ∧
  has_char "/" (basename (default "notebook" file)) = false ∧
  (∀ v, has_char "," (str v) = false ∧ has_char "/" (str v) = false).
Proof.
  split; [apply logdir_name_eq|]. split; [apply basename_no_slash|].
  intros v. split; (apply has_char_str; [|done|reflexivity]);
    intros d; unfold pretty_N_char; by repeat case_match.
Qed.

(** ** Different options, different directories *)

(** X20. Two runs started from the same script at the same time with options
    that differ in a value get different directories. *)
Theorem logdir_name_distinct file now args args' :
  args ≠ args' → logdir_name file now args ≠ logdir_name file now args'.
Proof.
  intros Hne H. apply Hne. rewrite !logdir_name_eq in H.
  do 4 apply append_inv_head in H.
  apply (append_inv_head "-bs=") in H.
  apply (append_split ",") in H as [H1 H]; [|apply str_no_comma..].
  apply (append_inv_head "e=") in H.
  apply (append_split ",") in H as [H2 H]; [|apply str_no_comma..].
  apply (append_inv_head "s=") in H.
  apply (append_split ",") in H as [H3 H]; [|apply str_no_comma..].
  apply (append_inv_head "t=") in H.
  apply str_inj in H1, H2, H3, H.
  destruct args, args'. simpl in *. congruence.
Qed.


Lemma abbreviate_initials_witness :
  Forall (λ w : Ascii.ascii * string,
            w.1 ≠ "010"%char ∧ has_char "_" w.2 = false)
    [("b"%char, "atch"); ("s"%char, "ize")] ∧
  abbreviate "batch_size" = "bs".
Proof.
  assert (H : Forall (λ w : Ascii.ascii * string,
                        w.1 ≠ "010"%char ∧ has_char "_" w.2 = false)
                [("b"%char, "atch"); ("s"%char, "ize")])
    by (repeat constructor; discriminate).
  split; [exact H|].
  exact (abbreviate_initials [("b"%char, "atch"); ("s"%char, "ize")] H).
Defined.

Lemma logdir_name_distinct_witness :
  Args.defaults ≠ Args.set Args.seed_ (Args.Int 43) Args.defaults ∧
  logdir_name (Some "/home/labs/08/tagger_competition.py") "2024-04-01_120000"
    Args.defaults ≠
  logdir_name (Some "/home/labs/08/tagger_competition.py") "2024-04-01_120000"
    (Args.set Args.seed_ (Args.Int 43) Args.defaults).
Proof.
  assert (H : Args.defaults ≠ Args.set Args.seed_ (Args.Int 43) Args.defaults)
    by discriminate.
  split; [exact H|].
  exact (logdir_name_distinct (Some "/home/labs/08/tagger_competition.py")
           "2024-04-01_120000" _ _ H).
Defined.

End Main.

(** * keras_init

    The static method that re-initialises the parameters of one torch
    module. The initializers draw random numbers: a tensor is described
    here slice by slice along its first axis, each slice being what the
    constructor of the module made it, a constant, or a draw from a named
    distribution. *)

Module KerasInit.
Section Init.

(** What a slice holds when the module has just been constructed. *)
Variable Content : Type.

Inductive Distribution := xavier_uniform | orthogonal | uniform (a b : Qc).
Inductive Slice :=
  | as_built (x : Content)
  | constant (v : Qc)
  | drawn (d : Distribution).
Abbreviation Tensor := (list Slice).

(** [torch.nn.init.xavier_uniform_], [orthogonal_], [uniform_], [zeros_]:
    the whole tensor is overwritten, its shape kept. *)
Definition xavier_uniform_ (t : Tensor) : Tensor := (λ _, drawn xavier_uniform) <$> t.
Definition orthogonal_ (t : Tensor) : Tensor := (λ _, drawn orthogonal) <$> t.
Definition uniform_ (t : Tensor) (a b : Qc) : Tensor := (λ _, drawn (uniform a b)) <$> t.
Definition zeros_ (t : Tensor) : Tensor := (λ _, constant 0) <$> t.

(** [t.data[lo:hi] = v]: the slices of the range that exist are set. *)
Definition assign (lo hi : nat) (v : Qc) (t : Tensor) : Tensor :=
  imap (λ i x, if decide (lo ≤ i < hi)%nat then constant v else x) t.

(** The classes the method tests for. No torch class belongs to two of the
    three groups, so a module is of one group or of none. *)
Inductive Layer :=
  | Linear | Conv1d | Conv2d | Conv3d
  | ConvTranspose1d | ConvTranspose2d | ConvTranspose3d.
Inductive Table := Embedding | EmbeddingBag.
Inductive Recurrent := RNN | LSTM | GRU | RNNCell | LSTMCell | GRUCell.

Inductive Module :=
  | layer (k : Layer) (weight : Tensor) (bias : option Tensor)
  | table (k : Table) (weight : Tensor)
  | recurrent (k : Recurrent) (hidden_size : nat)
      (parameters : list (string * Tensor))
  | other (parameters : list (string * Tensor)).

(** [module.named_parameters()] *)
Definition named_parameters (module : Module) : list (string * Tensor) :=
  match module with
  | layer _ weight bias =>
      ("weight", weight) ::
      match bias with
      | Some b => [("bias", b)]
      | None => []
      end
  | table _ weight => [("weight", weight)]
  | recurrent _ _ parameters => parameters
  | other parameters => parameters
  end.

(** [isinstance(module, (torch.nn.LSTM, torch.nn.LSTMCell))] *)
Definition is_LSTM (k : Recurrent) : bool :=
  match k with
  | LSTM | LSTMCell => true
  | _ => false
  end.

(** [sub in s] *)
Fixpoint contains (sub s : string) : bool :=
  String.prefix sub s ||
  match s with
  | "" => false
  | String _ rest => contains sub rest
  end.

(** The body of the loop over the parameters of a recurrent module: four
    statements, each with its own test. *)
Definition init_parameter (k : Recurrent) (hidden_size : nat)
    (name : string) (parameter : Tensor) : Tensor :=
  let parameter :=
    if contains "weight_ih" name then xavier_uniform_ parameter else parameter in
  let parameter :=
    if contains "weight_hh" name then orthogonal_ parameter else parameter in
  let parameter :=
    if contains "bias" name then zeros_ parameter else parameter in
  if contains "bias" name && is_LSTM k
  then assign hidden_size (hidden_size * 2) 1 parameter
  else parameter.

Definition keras_init (module : Module) : Module :=
  match module with
  | layer k weight bias => layer k (xavier_uniform_ weight) (zeros_ <$> bias)
  | table k weight =>
      table k (uniform_ weight (- Q2Qc (5 # 100)) (Q2Qc (5 # 100)))
  | recurrent k hidden_size parameters =>
      recurrent k hidden_size
        ((λ np, (np.1, init_parameter k hidden_size np.1 np.2)) <$> parameters)
  | other parameters => other parameters
  end.

(** ** Properties *)

Lemma length_assign lo hi v t : length (assign lo hi v t) = length t.
Proof. apply length_imap. Qed.

Lemma length_init_parameter k h name p :
  length (init_parameter k h name p) = length p.
Proof.
  unfold init_parameter, xavier_uniform_, orthogonal_, zeros_.
  destruct (contains "weight_ih" name), (contains "weight_hh" name),
    (contains "bias" name), (is_LSTM k); simpl;
    by rewrite ?length_assign, ?length_fmap.
Qed.

(** X21. The biases of a recurrent module. Every parameter whose name contains
    "bias" becomes zero everywhere, except that in an [LSTM] or an
    [LSTMCell] its slices from [hidden_size] up to twice [hidden_size], the
    bias of the forget gate, become one. The name, the position among the
    parameters and the size are kept. *)
Theorem keras_init_bias k hidden_size parameters n name p :
  parameters !! n = Some (name, p) → contains "bias" name = true →
  ∃ p',
    named_parameters (keras_init (recurrent k hidden_size parameters)) !! n =
      Some (name, p') ∧
    length p' = length p ∧
    ∀ i, (i < length p)%nat →
      p' !! i =
      Some (constant (if is_LSTM k &&
                        bool_decide (hidden_size ≤ i < 2 * hidden_size)%nat
                      then 1 else 0)).
Proof.
  intros Hn Hb. exists (init_parameter k hidden_size name p). split_and!.
  - cbn [keras_init named_parameters]. by rewrite list_lookup_fmap, Hn.
  - apply length_init_parameter.
  - intros i Hi. unfold init_parameter. rewrite Hb. cbn [andb].
    assert (Hz : ∀ t : Tensor, length t = length p →
                 zeros_ t !! i = Some (constant 0)).
    { intros t Ht. unfold zeros_. rewrite list_lookup_fmap.
      destruct (lookup_lt_is_Some_2 t i) as [x ->]; [lia|done]. }
    assert (Hzero : ∀ t : Tensor, length t = length p →
              (if is_LSTM k then assign hidden_size (hidden_size * 2) 1 (zeros_ t)
               else zeros_ t) !! i =
              Some (constant (if is_LSTM k &&
                        bool_decide (hidden_size ≤ i < 2 * hidden_size)%nat
                      then 1 else 0))).
    { intros t Ht. destruct (is_LSTM k); cbn [andb]; [|by apply Hz].
      unfold assign. rewrite list_lookup_imap, Hz by done. cbn [fmap option_fmap option_map].
      destruct (decide (hidden_size ≤ i < hidden_size * 2)%nat) as [H|H].
      - by rewrite bool_decide_eq_true_2 by lia.
      - by rewrite bool_decide_eq_false_2 by lia. }
    destruct (contains "weight_ih" name), (contains "weight_hh" name);
      apply Hzero; unfold xavier_uniform_, orthogonal_;
      by rewrite ?length_fmap.
Qed.

(** X22. The method changes contents only: the kind of the module, the names of
    its parameters, their order and their sizes are kept; a module of none
    of the classes it tests for is returned as it is, and so is a parameter
    of a recurrent module whose name contains none of "weight_ih",
    "weight_hh" and "bias". *)
Theorem keras_init_keeps_shapes module :
  (λ np, (np.1, length np.2)) <$> named_parameters (keras_init module) =
  (λ np, (np.1, length np.2)) <$> named_parameters module ∧
  match module, keras_init module with
  | layer k _ _, layer k' _ _ => k' = k
  | table k _, table k' _ => k' = k
  | recurrent k h ps, recurrent k' h' ps' =>
      k' = k ∧ h' = h ∧
      ∀ n name p, ps !! n = Some (name, p) →
        contains "weight_ih" name = false →
        contains "weight_hh" name = false →
        contains "bias" name = false →
        ps' !! n = Some (name, p)
  | other ps, other ps' => ps' = ps
  | _, _ => False
  end.
Proof.
  destruct module as [k w [b|]|k w|k h ps|ps]; cbn [keras_init named_parameters].
  - split; [|done]. cbn [fmap list_fmap fst snd option_fmap option_map].
    unfold xavier_uniform_, zeros_. by rewrite !length_fmap.
  - split; [|done]. cbn [fmap list_fmap fst snd option_fmap option_map].
    unfold xavier_uniform_. by rewrite !length_fmap.
  - split; [|done]. cbn [fmap list_fmap fst snd].
    unfold uniform_. by rewrite !length_fmap.
  - split.
    + rewrite <- list_fmap_compose. apply list_fmap_ext. intros n [name p] _.
      cbn [compose fst snd]. by rewrite length_init_parameter.
    + split_and!; try done. intros n name p Hn H1 H2 H3.
      rewrite list_lookup_fmap, Hn. cbn [fmap option_fmap option_map fst snd].
      unfold init_parameter. by rewrite H1, H2, H3.
  - done.
Qed.

End Init.

Lemma keras_init_bias_witness :
  [("bias_ih_l0", as_built nat <$> seq 0 8)] !! 0%nat =
    Some ("bias_ih_l0", as_built nat <$> seq 0 8) ∧
  contains "bias" "bias_ih_l0" = true ∧
  ∃ p',
    named_parameters nat
      (keras_init nat (recurrent nat LSTM 2
                         [("bias_ih_l0", as_built nat <$> seq 0 8)])) !! 0%nat =
      Some ("bias_ih_l0", p') ∧
    length p' = 8%nat ∧
    p' !! 1%nat = Some (constant nat 0) ∧
    p' !! 2%nat = Some (constant nat 1) ∧
    p' !! 3%nat = Some (constant nat 1) ∧
    p' !! 4%nat = Some (constant nat 0).
Proof.
  split; [reflexivity|]. split; [reflexivity|].
  destruct (keras_init_bias nat LSTM 2
              [("bias_ih_l0", as_built nat <$> seq 0 8)] 0%nat
              "bias_ih_l0" (as_built nat <$> seq 0 8) eq_refl eq_refl)
    as (p' & H1 & H2 & H3).
  exists p'. split; [exact H1|]. split; [exact H2|].
  assert (Hlt : ∀ i, (i < 8)%nat → (i < length (as_built nat <$> seq 0 8))%nat)
    by (intros i Hi; exact Hi).
  split; [apply (H3 1%nat), Hlt; lia|].
  split; [apply (H3 2%nat), Hlt; lia|].
  split; [apply (H3 3%nat), Hlt; lia|].
  apply (H3 4%nat), Hlt; lia.
Defined.

End KerasInit.
